(** * CANsniffer: the frame decoder and the ingestion pipeline

    A shallow embedding of [decoder.py] (the 16/40-bit field extractors, the
    decode routines, the two registries and [DataDecoder]) and of
    [CANsnifferUI.parse_frame] from [V3.py], with the properties of the
    specification stated over them.

    Conventions of the embedding:
    - a Python [int] is a [Z]; [|], [&], [<<] are [Z.lor], [Z.land],
      [Z.shiftl] (both sides agree on negative numbers: infinite two's
      complement);
    - a Python [float] is an IEEE 754 binary64 value, [spec_float] with
      precision 53 and maximal exponent 1024, and the arithmetic is the
      Standard Library's reference semantics of binary64;
    - a Python [str] is a [string], read as a sequence of code points
      below 256; [int(s, 16)], [hex], [repr] of a [str], [str] of a [float]
      and the [.Nf] format are written out as CPython computes them;
    - a raised exception is a value [Raise e] of the [result] monad, and a
      [try ... except] block is a [match] on it;
    - a [dict] whose insertion order is observable (the signal mappings) is
      an association list; the statistics table, which is only looked up
      and updated by key, is a [gmap]. *)

From Stdlib Require Import ZArith Lia List String Ascii DecimalString.
From Stdlib Require Import Floats.SpecFloat.
From stdpp Require Import gmap strings list.

#[local] Open Scope string_scope.
#[local] Open Scope Z_scope.

(* ================================================================== *)
(** * Python runtime: the fragment the two modules use *)
(* ================================================================== *)

Module Py.

(** ** Exceptions and the error monad *)

Inductive exn : Type :=
| ValueError (msg : string)
| IndexError (msg : string)
| OverflowError (msg : string).

(** [str(e)] *)
Definition str_exn (e : exn) : string :=
  match e with
  | ValueError msg | IndexError msg | OverflowError msg => msg
  end.

Inductive result (A : Type) : Type :=
| Ok (a : A)
| Raise (e : exn).
Arguments Ok {A} a.
Arguments Raise {A} e.

#[global] Instance result_ret : MRet result := @Ok.
#[global] Instance result_bind : MBind result :=
  λ A B f m, match m with Ok a => f a | Raise e => Raise e end.

(** ** Values *)

Abbreviation float := spec_float.

Inductive value : Type :=
| VInt (z : Z)
| VFloat (x : float)
| VBool (b : bool)
| VStr (s : string).

(** A [dict] with [str] keys, in insertion order. *)
Definition dict : Type := list (string * value).

(** ** Characters *)

Definition code (c : ascii) : Z := Z.of_N (N_of_ascii c).

Definition in_range (lo hi n : Z) : bool := (lo <=? n) && (n <=? hi).

(** [str.isspace] on one code point below 256: what [str.split()] splits on. *)
Definition isspace (c : ascii) : bool :=
  let n := code c in
  in_range 9 13 n || in_range 28 31 n || (n =? 32) || (n =? 133) || (n =? 160).

(** The white space [int(s, 16)] skips around the literal: the C locale's
    [isspace] on an ASCII character, and the two non-ASCII spaces that the
    conversion first turns into a blank. *)
Definition isspace_int (c : ascii) : bool :=
  let n := code c in
  in_range 9 13 n || (n =? 32) || (n =? 133) || (n =? 160).

Definition hex_value (c : ascii) : option Z :=
  let n := code c in
  if in_range 48 57 n then Some (n - 48)
  else if in_range 97 102 n then Some (n - 87)
  else if in_range 65 70 n then Some (n - 55)
  else None.

(** One lower-case hexadecimal digit, for [0 <= d < 16]. *)
Definition hex_char (d : Z) : ascii :=
  ascii_of_N (Z.to_N (if d <? 10 then 48 + d else 87 + d)).

(** ** [hex(n)] *)

Fixpoint hex_digits (fuel : nat) (n : Z) (acc : string) : string :=
  let acc' := String (hex_char (n mod 16)) acc in
  match fuel with
  | O => acc'
  | S fuel' => if n <? 16 then acc' else hex_digits fuel' (n / 16) acc'
  end.

Definition hex_abs (n : Z) : string :=
  hex_digits (Z.to_nat (Z.log2 n)) n "".

Definition hex (n : Z) : string :=
  if n <? 0 then "-0x" ++ hex_abs (- n) else "0x" ++ hex_abs n.

(** Two lower-case digits: [bytes.hex()] on one byte, and the [\xhh] of [repr]. *)
Definition hex2 (n : Z) : string :=
  String (hex_char (n / 16)) (String (hex_char (n mod 16)) "").

(** ** [str(n)] for an [int] *)

Definition str_int (n : Z) : string := NilZero.string_of_int (Z.to_int n).

(** ** [repr(s)] for a [str] *)

Fixpoint contains (c : ascii) (s : string) : bool :=
  match s with
  | EmptyString => false
  | String c' s' => if Ascii.eqb c c' then true else contains c s'
  end.

(** The double quote, code 34. *)
Definition dquote : ascii := ascii_of_N 34.

Definition repr_quote (s : string) : ascii :=
  if contains "'"%char s && negb (contains dquote s) then dquote else "'"%char.

Definition repr_char (quote c : ascii) : string :=
  let n := code c in
  if Ascii.eqb c quote || Ascii.eqb c "\"%char then String "\"%char (String c "")
  else if n =? 9 then "\t"
  else if n =? 10 then "\n"
  else if n =? 13 then "\r"
  else if (n <? 32) || (n =? 127) then "\x" ++ hex2 n
  else if n <? 127 then String c ""
  else if in_range 128 160 n || (n =? 173) then "\x" ++ hex2 n
  else String c "".

Fixpoint repr_body (quote : ascii) (s : string) : string :=
  match s with
  | EmptyString => ""
  | String c s' => repr_char quote c ++ repr_body quote s'
  end.

Definition repr_str (s : string) : string :=
  let q := repr_quote s in
  String q (repr_body q s ++ String q "").

Fixpoint take (n : nat) (s : string) : string :=
  match n, s with
  | S n', String c s' => String c (take n' s')
  | _, _ => ""
  end.

(** ** [int(s, 16)] *)

Fixpoint lstrip (s : string) : string :=
  match s with
  | String c s' => if isspace_int c then lstrip s' else s
  | EmptyString => s
  end.

Fixpoint all_space (s : string) : bool :=
  match s with
  | String c s' => isspace_int c && all_space s'
  | EmptyString => true
  end.

(** The digit loop: hexadecimal digits with single underscores between them.
    [prev_us] records that the previous character was an underscore; the
    result is the value read, the number of digits, and the unread rest. *)
Fixpoint scan_digits (prev_us : bool) (acc : Z) (ndigits : nat) (s : string)
  : option (Z * nat * string) :=
  match s with
  | EmptyString => if prev_us then None else Some (acc, ndigits, s)
  | String c s' =>
      if Ascii.eqb c "_"%char then
        if prev_us then None else scan_digits true acc ndigits s'
      else
        match hex_value c with
        | Some d => scan_digits false (acc * 16 + d) (S ndigits) s'
        | None => if prev_us then None else Some (acc, ndigits, s)
        end
  end.

Definition strip_sign (s : string) : bool * string :=
  match s with
  | String "+"%char s' => (false, s')
  | String "-"%char s' => (true, s')
  | _ => (false, s)
  end.

(** After the sign: an optional [0x] or [0X], itself optionally followed by
    one underscore. *)
Definition strip_base_prefix (s : string) : string :=
  match s with
  | String "0"%char (String c s') =>
      if Ascii.eqb c "x"%char || Ascii.eqb c "X"%char then
        match s' with
        | String "_"%char s'' => s''
        | _ => s'
        end
      else s
  | _ => s
  end.

Definition invalid_literal (s : string) : exn :=
  ValueError ("invalid literal for int() with base 16: " ++ take 200 (repr_str s)).

Definition int16 (s : string) : result Z :=
  let '(neg, s1) := strip_sign (lstrip s) in
  let s2 := strip_base_prefix s1 in
  match s2 with
  | String "_"%char _ => Raise (invalid_literal s)
  | _ =>
      match scan_digits false 0 0 s2 with
      | Some (v, S _, rest) =>
          if all_space rest then Ok (if neg then - v else v)
          else Raise (invalid_literal s)
      | _ => Raise (invalid_literal s)
      end
  end.

(** ** [str] methods used by the line parser *)

(** [s.startswith(p)] *)
Definition startswith (p s : string) : bool := String.prefix p s.

(** [s.replace(old, new)] for a non-empty [old]: occurrences are found from
    the left and do not overlap; [skip] counts the characters of a matched
    occurrence that are still to be passed over. *)
Fixpoint replace_from (old new : string) (skip : nat) (s : string) : string :=
  match s with
  | EmptyString => ""
  | String c s' =>
      match skip with
      | S k => replace_from old new k s'
      | O =>
          if String.prefix old s
          then new ++ replace_from old new (String.length old - 1) s'
          else String c (replace_from old new 0 s')
      end
  end.

Definition replace (old new s : string) : string := replace_from old new 0 s.

(** [s.split()]: the maximal runs of non-blank characters, in order. [cur]
    is the run being read. *)
Fixpoint split_from (cur : string) (s : string) : list string :=
  match s with
  | EmptyString => match cur with EmptyString => [] | _ => [cur] end
  | String c s' =>
      if isspace c then
        match cur with
        | EmptyString => split_from "" s'
        | _ => cur :: split_from "" s'
        end
      else split_from (cur ++ String c "") s'
  end.

Definition split (s : string) : list string := split_from "" s.

(** The line feed that ends a logged line. *)
Definition newline : string := String (ascii_of_N 10) "".

(** [sep.join(l)] *)
Fixpoint join (sep : string) (l : list string) : string :=
  match l with
  | [] => ""
  | [x] => x
  | x :: l' => x ++ sep ++ join sep l'
  end.

(** ** Floating point *)

Definition prec : Z := 53.
Definition emax : Z := 1024.

Definition fmul : float → float → float := SFmul prec emax.
Definition fsub : float → float → float := SFsub prec emax.
Definition fdiv : float → float → float := SFdiv prec emax.
Definition flt : float → float → bool := SFltb.

(** [float(n)]: the nearest binary64 value, ties to even; an [int] beyond
    the range raises. *)
Definition float_of_int (n : Z) : result float :=
  match binary_normalize prec emax n 0 false with
  | S754_infinity _ => Raise (OverflowError "int too large to convert to float")
  | x => Ok x
  end.

(** An [int] that is exactly a binary64 value. *)
Definition float_lit (n : Z) : float := binary_normalize prec emax n 0 false.

(** The literal [n/d] for a decimal fraction such as [0.001]: the binary64
    value nearest to the quotient, which correctly rounded division gives. *)
Definition float_frac (n d : Z) : float := fdiv (float_lit n) (float_lit d).

(** [n * x] for an [int] [n] and a [float] [x] *)
Definition int_mul_float (n : Z) (x : float) : result float :=
  f ← float_of_int n; mret (fmul f x).

(** [f"{x:.Nf}"]: fixed notation with [digits] decimals, rounding the exact
    value of [x] to the nearest, ties to even. [pad_zeros] fills the
    fractional digits on the left. *)
Definition pad_zeros (width : nat) (s : string) : string :=
  String.concat "" (repeat "0" (width - String.length s)%nat) ++ s.

Definition fixed_digits (digits : nat) (q : Z) : string :=
  let scale := 10 ^ Z.of_nat digits in
  str_int (q / scale) ++ "." ++ pad_zeros digits (str_int (q mod scale)).

Definition round_half_even (num den : Z) : Z :=
  let q := num / den in
  let r := num mod den in
  match 2 * r ?= den with
  | Lt => q
  | Gt => q + 1
  | Eq => if Z.even q then q else q + 1
  end.

Definition format_fixed (digits : nat) (x : float) : string :=
  match x with
  | S754_nan => "nan"
  | S754_infinity s => if s then "-inf" else "inf"
  | S754_zero s => (if s then "-" else "") ++ fixed_digits digits 0
  | S754_finite s m e =>
      let num := Z.pos m * 10 ^ Z.of_nat digits * 2 ^ Z.max e 0 in
      let den := 2 ^ Z.max (- e) 0 in
      (if s then "-" else "") ++ fixed_digits digits (round_half_even num den)
  end.

(** ** [str(x)] for a [float] *)

(** The shortest decimal digits that read back as [x], as [repr] prints
    them. For a finite positive [x = m * 2^e], [repr_interval] gives the
    numerators, over one denominator, of the two midpoints between [x] and
    its neighbours and of [x] itself. *)
Definition repr_interval (m : positive) (e : Z) : Z * Z * Z * Z :=
  let boundary := (Z.pos m =? 2 ^ 52) && (-1074 <? e) in
  let lo := if boundary then 4 * Z.pos m - 1 else 4 * Z.pos m - 2 in
  let s := 2 ^ Z.max (e - 2) 0 in
  (lo * s, 4 * Z.pos m * s, (4 * Z.pos m + 2) * s, 2 ^ Z.max (2 - e) 0).

(** [num / den < 10 ^ dp] *)
Definition lt_pow10 (num den dp : Z) : bool :=
  if 0 <=? dp then num <? 10 ^ dp * den else num * 10 ^ (- dp) <? den.

(** The position of the decimal point: the least [dp] from the start value
    on with [num / den < 10 ^ dp]. *)
Fixpoint find_decpt (fuel : nat) (num den dp : Z) : Z :=
  match fuel with
  | O => dp
  | S fuel' => if lt_pow10 num den dp then dp else find_decpt fuel' num den (dp + 1)
  end.

(** With [k] digits: the two [k]-digit neighbours of [x], and the one to
    print if either lies in the rounding interval (the nearer one, the even
    one on a tie). The interval is closed when the mantissa is even. *)
Definition repr_candidate (lo x hi den : Z) (closed : bool) (dp k : Z) : option Z :=
  let p := 10 ^ Z.max (k - dp) 0 in
  let q := den * 10 ^ Z.max (dp - k) 0 in
  let c_lo := (x * p) / q in
  let c_hi := c_lo + 1 in
  let inside c :=
    if closed then (lo * p <=? c * q) && (c * q <=? hi * p)
    else (lo * p <? c * q) && (c * q <? hi * p) in
  match inside c_lo, inside c_hi with
  | true, true =>
      match (x * p - c_lo * q) ?= (c_hi * q - x * p) with
      | Lt => Some c_lo
      | Gt => Some c_hi
      | Eq => Some (if Z.even c_lo then c_lo else c_hi)
      end
  | true, false => Some c_lo
  | false, true => Some c_hi
  | false, false => None
  end.

Fixpoint repr_search (fuel : nat) (lo x hi den : Z) (closed : bool) (dp k : Z) : Z * Z :=
  match repr_candidate lo x hi den closed dp k, fuel with
  | Some c, _ => (c, k)
  | None, S fuel' => repr_search fuel' lo x hi den closed dp (k + 1)
  | None, O => (x / den, k)
  end.

Fixpoint strip_zeros_rev (s : string) : string :=
  match s with
  | String "0"%char s' => strip_zeros_rev s'
  | _ => s
  end.

Definition rstrip_zeros (s : string) : string :=
  String.rev (strip_zeros_rev (String.rev s)).

Fixpoint drop (n : nat) (s : string) : string :=
  match n, s with
  | S n', String _ s' => drop n' s'
  | _, _ => s
  end.

Definition zeros (n : Z) : string := String.concat "" (repeat "0" (Z.to_nat n)).

(** The digits and the decimal point position laid out as [repr] does:
    exponent notation when the point falls more than 16 places to the right
    of the first digit or 4 or more to its left. *)
Definition repr_layout (ds : string) (dp : Z) : string :=
  let n := Z.of_nat (String.length ds) in
  if (-4 <? dp) && (dp <=? 16) then
    if dp <=? 0 then "0." ++ zeros (- dp) ++ ds
    else if n <=? dp then ds ++ zeros (dp - n) ++ ".0"
    else take (Z.to_nat dp) ds ++ "." ++ drop (Z.to_nat dp) ds
  else
    let ex := dp - 1 in
    let mant := if n =? 1 then ds else take 1 ds ++ "." ++ drop 1 ds in
    let exs := str_int (Z.abs ex) in
    mant ++ "e" ++ (if ex <? 0 then "-" else "+")
         ++ (if Z.abs ex <? 10 then "0" ++ exs else exs).

Definition str_float (x : float) : string :=
  match x with
  | S754_nan => "nan"
  | S754_infinity s => if s then "-inf" else "inf"
  | S754_zero s => if s then "-0.0" else "0.0"
  | S754_finite s m e =>
      let '(lo, v, hi, den) := repr_interval m e in
      let dp := find_decpt 640 v den (-330) in
      let '(c, k) := repr_search 17 lo v hi den (Z.even (Z.pos m)) dp 1 in
      let ds := str_int c in
      let dp' := dp - k + Z.of_nat (String.length ds) in
      (if s then "-" else "") ++ repr_layout (rstrip_zeros ds) dp'
  end.


(** ** The rest of the runtime that [V3.py] uses *)

Definition fadd : float → float → float := SFadd prec emax.

(** [int(x)] for a [float]: the value with its fraction cut off. *)
Definition int_of_float (x : float) : result Z :=
  match x with
  | S754_nan => Raise (ValueError "cannot convert float NaN to integer")
  | S754_infinity _ => Raise (OverflowError "cannot convert float infinity to integer")
  | S754_zero _ => Ok 0
  | S754_finite s m e =>
      let a := if 0 <=? e then Z.pos m * 2 ^ e else Z.pos m / 2 ^ (- e) in
      Ok (if s then - a else a)
  end.

(** [int(s)], base 10: as [int16] without the base prefix, with decimal
    digits, and with the interpreter's limit on the number of digits. *)
Definition dec_value (c : ascii) : option Z :=
  let n := code c in
  if in_range 48 57 n then Some (n - 48) else None.

Fixpoint scan_decimal (prev_us : bool) (acc : Z) (ndigits : nat) (s : string)
  : option (Z * nat * string) :=
  match s with
  | EmptyString => if prev_us then None else Some (acc, ndigits, s)
  | String c s' =>
      if Ascii.eqb c "_"%char then
        if prev_us then None else scan_decimal true acc ndigits s'
      else
        match dec_value c with
        | Some d => scan_decimal false (acc * 10 + d) (S ndigits) s'
        | None => if prev_us then None else Some (acc, ndigits, s)
        end
  end.

Definition max_str_digits : nat := 4300.

Definition invalid_literal10 (s : string) : exn :=
  ValueError ("invalid literal for int() with base 10: " ++ take 200 (repr_str s)).

Definition digit_limit_exceeded (ndigits : nat) : exn :=
  ValueError ("Exceeds the limit (4300 digits) for integer string conversion: value has "
              ++ str_int (Z.of_nat ndigits)
              ++ " digits; use sys.set_int_max_str_digits() to increase the limit").

Definition int10 (s : string) : result Z :=
  let '(neg, s1) := strip_sign (lstrip s) in
  match s1 with
  | String "_"%char _ => Raise (invalid_literal10 s)
  | _ =>
      match scan_decimal false 0 0 s1 with
      | Some (v, S n, rest) =>
          if (max_str_digits <? S n)%nat then Raise (digit_limit_exceeded (S n))
          else if all_space rest then Ok (if neg then - v else v)
          else Raise (invalid_literal10 s)
      | _ => Raise (invalid_literal10 s)
      end
  end.

(** [str(n)] and [f"{n}"] for an [int]: the interpreter refuses to write
    more than [max_str_digits] decimal digits, that is an [int] whose
    absolute value is [10 ^ 4300] or more, and raises [ValueError]. *)
Definition str_limit_exceeded : exn :=
  ValueError ("Exceeds the limit (4300 digits) for integer string conversion; "
              ++ "use sys.set_int_max_str_digits() to increase the limit").

Definition str_limit : Z := 10 ^ Z.of_nat max_str_digits.

Definition str_of_int (n : Z) : result string :=
  if str_limit <=? Z.abs n then Raise str_limit_exceeded else Ok (str_int n).

(** [s.upper()] on text made of ASCII characters. *)
Definition upper_char (c : ascii) : ascii :=
  if in_range 97 122 (code c) then ascii_of_N (Z.to_N (code c - 32)) else c.

Fixpoint upper (s : string) : string :=
  match s with
  | EmptyString => ""
  | String c s' => String (upper_char c) (upper s')
  end.

(** [f"{x:02X}"] for an [int] from 0 to 255 *)
Definition hex2_upper (n : Z) : string := upper (hex2 n).

(** [struct.pack('<h', n)]: the two bytes of [n], least significant first;
    [None] stands for the [struct.error] raised outside the 16-bit signed
    range. *)
Definition pack_le_h (n : Z) : option (list Z) :=
  if in_range (-32768) 32767 n then Some [n mod 256; (n / 256) mod 256] else None.

(** [n.to_bytes(6, 'big', signed=True)]; [None] stands for the
    [OverflowError] raised outside the 48-bit signed range. *)
Definition to_bytes6_be (n : Z) : option (list Z) :=
  if in_range (- 2 ^ 47) (2 ^ 47 - 1) n
  then Some [(n / 2 ^ 40) mod 256; (n / 2 ^ 32) mod 256; (n / 2 ^ 24) mod 256;
             (n / 2 ^ 16) mod 256; (n / 2 ^ 8) mod 256; n mod 256]
  else None.

(** [bytes.hex()] *)
Definition hex_of_bytes (bs : list Z) : string := String.concat "" (hex2 <$> bs).

End Py.


(* ================================================================== *)
(** * decoder.py *)
(* ================================================================== *)

Module Decoder.
Import Py.

(** ** 1. Helper functions *)

(** [data[i]] for a non-negative [i] *)
Definition index (data : list Z) (i : nat) : result Z :=
  match data !! i with
  | Some b => Ok b
  | None => Raise (IndexError "list index out of range")
  end.

(** [data[i]] for any [int] [i]: a negative index counts from the end of
    the list. *)
Definition index_int (data : list Z) (i : Z) : result Z :=
  let n := Z.of_nat (length data) in
  if i <? 0 then
    if 0 <=? i + n then index data (Z.to_nat (i + n))
    else Raise (IndexError "list index out of range")
  else index data (Z.to_nat i).

(** Little endian: byte 0 is the least significant. *)
Definition parse_le_int16 (data : list Z) (offset : Z) : result Z :=
  if Z.of_nat (length data) <? offset + 2 then mret 0
  else
    lo ← index_int data offset;
    hi ← index_int data (offset + 1);
    let raw := Z.lor lo (Z.shiftl hi 8) in
    mret (if raw >? 32767 then raw - 65536 else raw).

(** Big endian: byte 0 is the most significant. *)
Definition parse_be_int16 (data : list Z) (offset : Z) : result Z :=
  if Z.of_nat (length data) <? offset + 2 then mret 0
  else
    hi ← index_int data offset;
    lo ← index_int data (offset + 1);
    let raw := Z.lor (Z.shiftl hi 8) lo in
    mret (if raw >? 32767 then raw - 65536 else raw).

(** The IVT sensor format: five bytes, big endian, after a skipped byte 0. *)
Definition parse_ivt_int40 (data : list Z) : result Z :=
  if (length data <? 6)%nat then mret 0
  else
    b1 ← index data 1;
    b2 ← index data 2;
    b3 ← index data 3;
    b4 ← index data 4;
    b5 ← index data 5;
    let raw :=
      Z.lor (Z.lor (Z.lor (Z.lor (Z.shiftl b1 32) (Z.shiftl b2 24))
                          (Z.shiftl b3 16)) (Z.shiftl b4 8)) b5 in
    mret (if Z.land raw 0x8000000000 =? 0 then raw else raw - 0x10000000000).

(** ** 2. Decoding logic *)

(** The [float] literals of the module. *)
Definition f_1_0 : float := float_lit 1.
Definition f_0_1 : float := float_frac 1 10.
Definition f_0_01 : float := float_frac 1 100.
Definition f_0_001 : float := float_frac 1 1000.

Definition decode_inverter_multiplexed (data : list Z) : result dict :=
  if (length data <? 3)%nat then mret [("Error", VStr "Len<3")]
  else
    mux_id ← index data 0;
    raw_val ← parse_le_int16 data 1;
    if mux_id =? 0x30 then v ← int_mul_float raw_val f_1_0; mret [("RPM", VFloat v)]
    else if mux_id =? 0xEB then v ← int_mul_float raw_val f_0_1; mret [("DC Bus", VFloat v)]
    else if mux_id =? 0x20 then v ← int_mul_float raw_val f_0_1; mret [("Inv Current", VFloat v)]
    else if mux_id =? 0x49 then v ← int_mul_float raw_val f_1_0; mret [("Motor Temp", VFloat v)]
    else if mux_id =? 0x4A then v ← int_mul_float raw_val f_1_0; mret [("IGBT Temp", VFloat v)]
    else mret [("Mux " ++ hex mux_id, VInt raw_val)].

Definition decode_inverter_igbt_temp (data : list Z) : result dict :=
  raw ← parse_le_int16 data 1;
  v ← int_mul_float raw f_1_0;
  mret [("IGBT Temp (L)", VFloat v)].

Definition decode_torque_command (data : list Z) : result dict :=
  raw ← parse_le_int16 data 1;
  mret [("Torque Cmd", VInt raw)].

Definition decode_ui_voltages (data : list Z) : result dict :=
  r1 ← parse_be_int16 data 2; v1 ← int_mul_float r1 f_0_01;
  r2 ← parse_be_int16 data 4; v2 ← int_mul_float r2 f_0_01;
  r3 ← parse_be_int16 data 6; v3 ← int_mul_float r3 f_0_01;
  mret [("UI V1", VFloat v1); ("UI V2", VFloat v2); ("UI V3", VFloat v3)].

Definition decode_ui_temperatures (data : list Z) : result dict :=
  if (length data <? 7)%nat then mret [("Error", VStr "Short")]
  else
    t1 ← index data 2;
    t2 ← index data 3;
    t3 ← index data 4;
    mret [("UI T1", VInt t1); ("UI T2", VInt t2); ("UI T3", VInt t3)].

(** IVT sensors *)

Definition decode_ivt_current (d : list Z) : result dict :=
  raw ← parse_ivt_int40 d; v ← int_mul_float raw f_0_001;
  mret [("Current", VStr (format_fixed 2 v ++ " A"))].

Definition decode_ivt_voltage_vehicle (d : list Z) : result dict :=
  raw ← parse_ivt_int40 d; v ← int_mul_float raw f_0_001;
  mret [("Volts Veh", VStr (format_fixed 2 v ++ " V"))].

Definition decode_ivt_voltage_pack (d : list Z) : result dict :=
  raw ← parse_ivt_int40 d; v ← int_mul_float raw f_0_001;
  mret [("Volts Pack", VStr (format_fixed 2 v ++ " V"))].

Definition decode_ivt_wattage (d : list Z) : result dict :=
  raw ← parse_ivt_int40 d; v ← int_mul_float raw f_1_0;
  mret [("Power", VStr (format_fixed 1 v ++ " W"))].

Definition decode_ivt_current_counter (d : list Z) : result dict :=
  raw ← parse_ivt_int40 d; v ← int_mul_float raw f_1_0;
  mret [("Ah", VFloat v)].

Definition decode_ivt_wattage_counter (d : list Z) : result dict :=
  raw ← parse_ivt_int40 d; v ← int_mul_float raw f_1_0;
  mret [("Wh", VFloat v)].

(** Status flags *)

(** [bytes(data).hex()] *)
Definition bytes_hex (data : list Z) : result string :=
  if forallb (λ b, in_range 0 255 b) data
  then mret (String.concat "" (hex2 <$> data))
  else Raise (ValueError "bytes must be in range(0, 256)").

Definition decode_acu_info_1 (data : list Z) : result dict :=
  h ← bytes_hex data; mret [("ACU Info 1", VStr h)].

Definition decode_acu_info_2 (data : list Z) : result dict :=
  h ← bytes_hex data; mret [("ACU Info 2", VStr h)].

Definition decode_acu_precharge (data : list Z) : result dict :=
  b ← index data 0; mret [("Precharge", VInt b)].

Definition decode_vcu_connected (data : list Z) : result dict :=
  b ← index data 0; mret [("VCU", VBool (negb (b =? 0)))].

Definition decode_vcu_reply (data : list Z) : result dict :=
  b ← index data 0; mret [("VCU Reply", VBool (negb (b =? 0)))].

(** ** 3. Registry and class *)

Definition CAN_ID_NAMES : gmap Z string :=
  list_to_map
    [ (0x181, "Inverter Status (Mux)");
      (0x385, "Inverter IGBT Temp");
      (0x201, "Torque Command");
      (0x700, "UI Voltages");
      (0x701, "UI Temps");
      (0x521, "IVT Current");
      (0x522, "IVT Voltage Veh");
      (0x523, "IVT Voltage Pack");
      (0x100, "ACU Control") ].

Definition decoder_table : list (Z * (list Z → result dict)) :=
  [ (0x181, decode_inverter_multiplexed);
    (0x385, decode_inverter_igbt_temp);
    (0x201, decode_torque_command);
    (0x700, decode_ui_voltages);
    (0x701, decode_ui_temperatures);
    (0x105, decode_acu_info_1);
    (0x106, decode_acu_info_2);
    (0x100, decode_acu_precharge);
    (0x521, decode_ivt_current);
    (0x522, decode_ivt_voltage_vehicle);
    (0x523, decode_ivt_voltage_pack);
    (0x526, decode_ivt_wattage);
    (0x527, decode_ivt_current_counter);
    (0x528, decode_ivt_wattage_counter);
    (0x175, decode_vcu_connected);
    (0x176, decode_vcu_reply) ].

Definition DECODER_MAP : gmap Z (list Z → result dict) := list_to_map decoder_table.

(** What [DataDecoder.decode] returns: a signal mapping or a [str]. *)
Inductive decoded : Type :=
| Signals (d : dict)
| Text (s : string).

(** The body of the [try] block of [DataDecoder.decode]. *)
Definition decode_try (can_id_str : string) (data_bytes_list : list string) : result decoded :=
  can_id ← int16 can_id_str;
  data_ints ← mapM int16 data_bytes_list;
  match DECODER_MAP !! can_id with
  | Some decoder_func => d ← decoder_func data_ints; mret (Signals d)
  | None => mret (Text "No Decoder")
  end.

(** Converts a hex id and a byte list into engineering values. *)
Definition decode (can_id_str : string) (data_bytes_list : list string) : decoded :=
  match decode_try can_id_str data_bytes_list with
  | Ok r => r
  | Raise e => Text ("Err: " ++ str_exn e)
  end.

Definition get_name (can_id_str : string) : string :=
  match int16 can_id_str with
  | Ok cid => default "Unknown ID" (CAN_ID_NAMES !! cid)
  | Raise _ => "Unknown"
  end.

End Decoder.


(* ================================================================== *)
(** * V3.py: [CANsnifferUI.parse_frame] *)
(* ================================================================== *)

Module V3.
Import Py Decoder.

(** One entry of [self.stats]: [{'c': count, 't': time of the last frame}]. *)
Record stat : Type := { c : Z; t : float }.

(** The tuple [values=row] of a dashboard line, in column order:
    ID, Name, DLC, Data, Value, Freq, Count, Time. *)
Record row : Type := {
  row_id : string;
  row_name : string;
  row_dlc : string;
  row_data : string;
  row_value : string;
  row_freq : string;
  row_count : Z;
  row_time : string
}.

(** What [parse_frame] reads and writes: [self.stats], the items of
    [self.tree] in display order under their item id, and the lines
    appended to [self.txt_log]. *)
Record ui : Type := {
  stats : gmap string stat;
  tree : list (string * row);
  txt_log : list string
}.

(** [self.tree.exists(iid)] *)
Definition tree_exists (iid : string) (tr : list (string * row)) : bool :=
  existsb (λ it, String.eqb (fst it) iid) tr.

(** [self.tree.item(iid, values=r)]: the values of the item are replaced,
    its position is kept. *)
Definition tree_item (iid : string) (r : row) (tr : list (string * row))
  : list (string * row) :=
  (λ it, if String.eqb (fst it) iid then (iid, r) else it) <$> tr.

(** [self.tree.insert("", "end", iid=iid, values=r)] *)
Definition tree_insert (iid : string) (r : row) (tr : list (string * row))
  : list (string * row) :=
  tr ++ [(iid, r)].

(** The values shown for item [iid]. *)
Definition tree_values (iid : string) (tr : list (string * row)) : option row :=
  snd <$> List.find (λ it, String.eqb (fst it) iid) tr.

(** [f"{v}"] for the value of a signal; only an [int] can raise. *)
Definition str_value (v : value) : result string :=
  match v with
  | VInt z => str_of_int z
  | VFloat x => Ok (str_float x)
  | VBool b => Ok (if b then "True" else "False")
  | VStr s => Ok s
  end.

(** [", ".join([f"{k}: {v}" for k, v in dec.items()]) if isinstance(dec, dict)
    else str(dec)] *)
Definition val_str (dec : decoded) : result string :=
  match dec with
  | Signals d =>
      parts ← mapM (λ kv, s ← str_value (snd kv); mret (fst kv ++ ": " ++ s)) d;
      mret (join ", " parts)
  | Text s => Ok s
  end.

(** [line.replace(",", " ").replace("ID:", "").replace("DATA:", "").split()] *)
Definition tokens (line : string) : list string :=
  split (replace "DATA:" "" (replace "ID:" "" (replace "," " " line))).

(** [cid]: the id token, with [0x] put in front unless it starts with it. *)
Definition canonical_id (p0 : string) : string :=
  if startswith "0x" p0 then p0 else "0x" ++ p0.

(** The frequency column, from the time [dt] elapsed since the last frame
    of the same id. *)
Definition freq_label (dt : float) : string :=
  if flt (S754_zero false) dt
  then format_fixed 1 (fdiv f_1_0 dt) ++ " Hz"
  else "-".

(** [parse_frame(ts, line)], with [now] the value [time.time()] returns.
    A line of fewer than two tokens returns at once. The body is a [try]
    block with [except: pass]: the one statement of it that can raise is
    the rendering of the decoded value, which comes before the statistics,
    the dashboard and the log are written, so a line whose rendering raises
    leaves the state as it was. The count shown in the row is read back
    from the entry just stored, [self.stats[cid]['c']]. *)
Definition parse_frame (now : float) (ts line : string) (st : ui) : ui :=
  match tokens line with
  | p0 :: p1 :: data =>
      let cid := canonical_id p0 in
      let dec := decode cid data in
      match val_str dec with
      | Raise _ => st
      | Ok vs =>
          let prev := default {| c := 0; t := now |} (stats st !! cid) in
          let freq := freq_label (fsub now (t prev)) in
          let stats' := <[cid := {| c := c prev + 1; t := now |}]> (stats st) in
          let r := {| row_id := cid; row_name := get_name cid; row_dlc := p1;
                      row_data := join " " data; row_value := vs; row_freq := freq;
                      row_count := from_option c 0 (stats' !! cid); row_time := ts |} in
          {| stats := stats';
             tree := if tree_exists cid (tree st)
                     then tree_item cid r (tree st)
                     else tree_insert cid r (tree st);
             txt_log := txt_log st ++ ["[" ++ ts ++ "] " ++ cid ++ ": " ++ vs ++ newline] |}
      end
  | _ => st
  end.

Definition empty_ui : ui := {| stats := ∅; tree := []; txt_log := [] |}.

(** ** The consumer: [update_loop] and [clear] *)

(** What the transports put on the queue. *)
Inductive item : Type :=
| DATA (ts raw : string)
| SYS (content : string).

(** The state of the window that the consumer writes: the state of
    [parse_frame] and the lines of [self.txt_raw]. *)
Record gui : Type := {
  core : ui;
  txt_raw : list string
}.

(** One turn of the [while] loop of [update_loop] on the item it got from
    the queue; [now] is what [time.time()] returns inside [parse_frame]. *)
Definition handle (now : float) (it : item) (g : gui) : gui :=
  match it with
  | DATA ts raw =>
      {| core := parse_frame now ts raw (core g);
         txt_raw := txt_raw g ++ [ts ++ " | " ++ raw ++ newline] |}
  | SYS content =>
      {| core := {| stats := stats (core g); tree := tree (core g);
                    txt_log := txt_log (core g) ++ ["SYSTEM: " ++ content ++ newline] |};
         txt_raw := txt_raw g |}
  end.

(** [update_loop] until the queue is found empty: [q] lists the items it
    gets, each with the clock value read while it is handled. *)
Definition update_loop (q : list (float * item)) (g : gui) : gui :=
  foldl (λ g' e, handle (fst e) (snd e) g') g q.

(** [clear()]: both text widgets are emptied; the statistics and the
    dashboard are not touched. *)
Definition clear (g : gui) : gui :=
  {| core := {| stats := stats (core g); tree := tree (core g); txt_log := [] |};
     txt_raw := [] |}.

Definition empty_gui : gui := {| core := empty_ui; txt_raw := [] |}.

(** ** [connect]: the baud rate *)

(** The baud rate [connect] opens the port with, from the text of the
    combo box, and the line it logs when it falls back to 9600. *)
Definition connect_baud (raw_baud : string) : Z * option string :=
  match int10 raw_baud with
  | Ok baud =>
      if baud <=? 0
      then (9600, Some ("SYS: Invalid baud '" ++ raw_baud ++ "'. Falling back to 9600." ++ newline))
      else (baud, None)
  | Raise _ =>
      (9600, Some ("SYS: Invalid baud '" ++ raw_baud ++ "'. Falling back to 9600." ++ newline))
  end.

(** ** The test simulator: [TestGen] *)

Module TestGen.

(** [self.temp] is the [int] 30 at first, then a [float], then the [int] 60. *)
Inductive num : Type :=
| NInt (z : Z)
| NFloat (x : float).

Record state : Type := {
  rpm : Z;
  rpm_dir : Z;
  volt : Z;
  temp : num
}.

(** [__init__] *)
Definition init : state := {| rpm := 0; rpm_dir := 1; volt := 400000; temp := NInt 30 |}.

Definition f_0_05 : float := float_frac 5 100.
Definition f_60 : float := float_lit 60.

(** [min(60, temp + 0.05)]: the sum unless it is not below 60. [None]
    stands for an exception. *)
Definition next_temp (temp : num) : option num :=
  match (match temp with
         | NInt z => match float_of_int z with Ok x => Some (fadd x f_0_05) | Raise _ => None end
         | NFloat x => Some (fadd x f_0_05)
         end) with
  | Some sum => Some (if flt sum f_60 then NFloat sum else NInt 60)
  | None => None
  end.

(** [int(self.temp)] *)
Definition int_of_num (n : num) : option Z :=
  match n with
  | NInt z => Some z
  | NFloat x => match int_of_float x with Ok z => Some z | Raise _ => None end
  end.

(** [struct.pack('<h', n).hex().upper()] *)
Definition pack_hex (n : Z) : option string :=
  bs ← pack_le_h n; Some (upper (hex_of_bytes bs)).

(** One turn of the [while] loop of [loop]: the new state and the three
    lines put on the queue, in order. [jitter] is what
    [random.randint(-500, 500)] returns; [None] stands for an exception,
    which would end the thread. *)
Definition loop_body (jitter : Z) (g : state) : option (state * list string) :=
  let rpm' := rpm g + 40 * rpm_dir g in
  let dir' := if (rpm' >=? 6000) || (rpm' <=? 0) then rpm_dir g * -1 else rpm_dir g in
  temp' ← next_temp (temp g);
  rpm_h ← pack_hex rpm';
  t ← int_of_num temp';
  tmp_h ← pack_hex t;
  v_bytes ← to_bytes6_be (volt g + jitter);
  let v_str := join " " (hex2_upper <$> v_bytes) in
  Some ({| rpm := rpm'; rpm_dir := dir'; volt := volt g; temp := temp' |},
        [ "0x181 8 30 " ++ take 2 rpm_h ++ " " ++ drop 2 rpm_h ++ " 00 00 00 00";
          "0x181 8 49 " ++ take 2 tmp_h ++ " " ++ drop 2 tmp_h ++ " 00 00 00 00";
          "0x523 6 " ++ v_str ]).

(** [n] turns of the loop from [g], with the jitter of each turn; the
    lines of all turns in the order they are queued. *)
Fixpoint run (jitters : list Z) (g : state) : option (state * list string) :=
  match jitters with
  | [] => Some (g, [])
  | j :: js =>
      '(g1, out1) ← loop_body j g;
      '(g2, out2) ← run js g1;
      Some (g2, (out1 ++ out2)%list)
  end.

End TestGen.

End V3.


(* ================================================================== *)
(** * Properties *)
(* ================================================================== *)

Import Py Decoder V3.

(** ** Vocabulary of the properties *)

(** The value of one payload byte. *)
Definition is_byte (b : Z) : Prop := 0 <= b < 256.

(** Byte [i] of the two's complement representation of [v]. *)
Definition byte_of (v : Z) (i : Z) : Z := (v / 2 ^ (8 * i)) mod 256.

(** [v] as two bytes, least significant first, as [struct.pack('<h', v)]
    writes them. *)
Definition le_bytes16 (v : Z) : list Z := [byte_of v 0; byte_of v 1].

(** [v] as two bytes, most significant first. *)
Definition be_bytes16 (v : Z) : list Z := [byte_of v 1; byte_of v 0].

(** [v] as five bytes, most significant first. *)
Definition be_bytes40 (v : Z) : list Z :=
  [byte_of v 4; byte_of v 3; byte_of v 2; byte_of v 1; byte_of v 0].

(** The value of a [width]-bit two's complement pattern [raw]. *)
Definition signed (width : Z) (raw : Z) : Z :=
  if raw <? 2 ^ (width - 1) then raw else raw - 2 ^ width.

(** The selectors [decode_inverter_multiplexed] knows, each with the name of
    its signal and its scale. *)
Definition mux_signals : gmap Z (string * float) :=
  list_to_map
    [ (0x30, ("RPM", f_1_0));
      (0xEB, ("DC Bus", f_0_1));
      (0x20, ("Inv Current", f_0_1));
      (0x49, ("Motor Temp", f_1_0));
      (0x4A, ("IGBT Temp", f_1_0)) ].

(** The ids that [DECODER_MAP] has and [CAN_ID_NAMES] lacks. *)
Definition unnamed_ids : list Z := [0x105; 0x106; 0x175; 0x176; 0x526; 0x527; 0x528].

(** A structured short-message value: a mapping with the one key [Error]. *)
Definition short_message (r : result dict) : Prop :=
  ∃ msg, r = Ok [("Error", VStr msg)].

(** The number of leading payload elements that the routine registered
    under an id reads when the payload is long enough: the length its own
    test asks for when it has one, and otherwise one more than the highest
    position it reads. *)
Definition min_length : gmap Z nat :=
  list_to_map
    [ (0x181, 3%nat); (0x385, 3%nat); (0x201, 3%nat); (0x700, 8%nat);
      (0x701, 7%nat); (0x105, 0%nat); (0x106, 0%nat); (0x100, 1%nat);
      (0x521, 6%nat); (0x522, 6%nat); (0x523, 6%nat); (0x526, 6%nat);
      (0x527, 6%nat); (0x528, 6%nat); (0x175, 1%nat); (0x176, 1%nat) ].

(** [0.0] *)
Definition f_zero : float := S754_zero false.

(** What the routines that test the length, themselves or in the helper
    they call, return below a length: the length under which no field is
    read, and the mapping returned. The routines that index the payload
    without a test (0x100, 0x175, 0x176) and those that read no particular
    position (0x105, 0x106) have no entry. *)
Definition short_behaviour : gmap Z (nat * dict) :=
  list_to_map
    [ (0x181, (3%nat, [("Error", VStr "Len<3")]));
      (0x701, (7%nat, [("Error", VStr "Short")]));
      (0x385, (3%nat, [("IGBT Temp (L)", VFloat f_zero)]));
      (0x201, (3%nat, [("Torque Cmd", VInt 0)]));
      (0x700, (4%nat, [("UI V1", VFloat f_zero); ("UI V2", VFloat f_zero);
                       ("UI V3", VFloat f_zero)]));
      (0x521, (6%nat, [("Current", VStr "0.00 A")]));
      (0x522, (6%nat, [("Volts Veh", VStr "0.00 V")]));
      (0x523, (6%nat, [("Volts Pack", VStr "0.00 V")]));
      (0x526, (6%nat, [("Power", VStr "0.0 W")]));
      (0x527, (6%nat, [("Ah", VFloat f_zero)]));
      (0x528, (6%nat, [("Wh", VFloat f_zero)])) ].

(** A token that [int(_, 16)] rejects. *)
Definition non_hex (tok : string) : Prop := ∃ e, int16 tok = Raise e.

(** The canonical id of the frame on a line, when the line has the two
    tokens that [parse_frame] asks for. *)
Definition frame_id (line : string) : option string :=
  match tokens line with
  | p0 :: _ :: _ => Some (canonical_id p0)
  | _ => None
  end.

(** The statistics and the dashboard agree: no item id twice; an id with a
    statistics entry has a row, under its id, that shows the count of the
    entry, which is at least 1; an id without an entry has no row. *)
Definition consistent (st : ui) : Prop :=
  NoDup (tree st).*1
  ∧ ∀ cid, match stats st !! cid with
           | Some s =>
               1 <= c s
               ∧ ∃ r, tree_values cid (tree st) = Some r
                      ∧ row_id r = cid ∧ row_count r = c s
           | None => tree_values cid (tree st) = None
           end.

(** The count of an id, 0 when it was never seen. *)
Definition count_of (st : ui) (cid : string) : Z := from_option c 0 (stats st !! cid).

(** The canonical id under which [parse_frame] counts the line: the one of
    [frame_id] when the decoded value renders, and [None] for a line that
    is dropped. *)
Definition counted_id (line : string) : option string :=
  match tokens line with
  | p0 :: _ :: data =>
      match val_str (decode (canonical_id p0) data) with
      | Ok _ => Some (canonical_id p0)
      | Raise _ => None
      end
  | _ => None
  end.

(** A decoded value with an [int] signal of more than 4300 digits, which
    [str] refuses to write. *)
Definition oversized (dec : decoded) : Prop :=
  ∃ d k z, dec = Signals d ∧ (k, VInt z) ∈ d ∧ str_limit <= Z.abs z.

(** The number of lines of the queue that are counted as frames of [cid]. *)
Definition sightings (cid : string) (q : list (float * item)) : nat :=
  length (List.filter
            (λ e, match snd e with
                  | DATA _ raw => bool_decide (counted_id raw = Some cid)
                  | SYS _ => false
                  end) q).

(** The number of [DATA] items of the queue. *)
Definition data_items (q : list (float * item)) : nat :=
  length (List.filter (λ e, match snd e with DATA _ _ => true | SYS _ => false end) q).

(** Every character of [s] passes the test [p]. *)
Fixpoint all_chars (p : ascii → bool) (s : string) : bool :=
  match s with
  | EmptyString => true
  | String a s' => p a && all_chars p s'
  end.

(** A character that is no blank, comma or colon. *)
Definition plain_char (a : ascii) : bool :=
  negb (isspace a || Ascii.eqb a ","%char || Ascii.eqb a ":"%char).

(** A word as the line grammar has them: not empty, with no blank, comma
    or colon in it. *)
Definition plain (w : string) : bool :=
  match w with
  | EmptyString => false
  | _ => all_chars plain_char w
  end.

(** The line the simulator writes for a multiplexed frame: selector [sel]
    and the four hexadecimal digits [h] of the packed value. *)
Definition mux_line (sel h : string) : string :=
  "0x181 8 " ++ sel ++ " " ++ take 2 h ++ " " ++ drop 2 h ++ " 00 00 00 00".

(** The line the simulator writes for the pack voltage, from its bytes. *)
Definition volt_line (bs : list Z) : string :=
  "0x523 6 " ++ join " " (hex2_upper <$> bs).

(** The counter of the simulator after [n] turns, in closed form: a
    triangular wave of period 300 between 0 and 6000. *)
Definition triangle (n : Z) : Z :=
  let k := n mod 300 in
  if k <=? 150 then 40 * k else 40 * (300 - k).

(** The direction of the counter after [n] turns. *)
Definition direction (n : Z) : Z := if n mod 300 <? 150 then 1 else -1.

#[global] Instance float_eq_dec : EqDecision spec_float.
Proof. solve_decision. Defined.

#[global] Instance num_eq_dec : EqDecision TestGen.num.
Proof. solve_decision. Defined.

(** The temperatures of the simulator, turn after turn, from [t] until the
    value 60 is reached. *)
Fixpoint temp_trajectory (fuel : nat) (t : TestGen.num) : list TestGen.num :=
  match fuel with
  | O => [t]
  | S fuel' =>
      match t with
      | TestGen.NInt 60 => [t]
      | _ =>
          match TestGen.next_temp t with
          | Some t' => t :: temp_trajectory fuel' t'
          | None => [t]
          end
      end
  end.

Definition temp_values : list TestGen.num := temp_trajectory 1000 (TestGen.NInt 30).

(** The temperature after [n] turns. *)
Definition temp_at (n : nat) : TestGen.num := nth n temp_values (TestGen.NInt 60).

(** The state of the simulator after [n] turns. *)
Definition state_at (n : nat) (g : TestGen.state) : Prop :=
  TestGen.rpm g = triangle (Z.of_nat n)
  ∧ TestGen.rpm_dir g = direction (Z.of_nat n)
  ∧ TestGen.volt g = 400000
  ∧ TestGen.temp g = temp_at n.

(** The ids of the frames of [n] turns of the simulator. *)
Fixpoint turn_frames (n : nat) : list (option string) :=
  match n with
  | O => []
  | S n' => Some "0x181" :: Some "0x181" :: Some "0x523" :: turn_frames n'
  end.

(** The lines of the [DATA] items of the queue, in order. *)
Definition data_lines (q : list (float * item)) : list string :=
  omap (λ e, match snd e with DATA _ raw => Some raw | SYS _ => None end) q.

(** The number of lines of the queue that are frames of [cid], counted or
    dropped. *)
Definition frames (cid : string) (q : list (float * item)) : nat :=
  length (List.filter (λ raw, bool_decide (frame_id raw = Some cid)) (data_lines q)).

(** ** Tactics *)

(** Case analysis on membership in a list written out in full. *)
Ltac list_cases H :=
  repeat (apply elem_of_cons in H as [H | H]);
  [.. | by apply elem_of_nil in H].

(** Finds an entry written in [decoder_table]. *)
Ltac find_entry :=
  unfold decoder_table;
  repeat first [apply list_elem_of_here | apply list_elem_of_further].

(** Runs a routine on every list shorter than the bound in [Hlen]. *)
Ltac short_list data :=
  destruct data as [| ? data]; [vm_compute; reflexivity |].

Ltac short_lists data Hlen :=
  match type of Hlen with
  | (_ < 3)%nat => do 3 short_list data
  | (_ < 4)%nat => do 4 short_list data
  | (_ < 6)%nat => do 6 short_list data
  | (_ < 7)%nat => do 7 short_list data
  end;
  simpl in Hlen; lia.

(** Runs one of the six IVT routines on bytes, with the lemma [scaled] on
    the scaled 40-bit value. *)
Ltac ivt_ok scaled data Hb :=
  let v := fresh "v" in
  let x := fresh "x" in
  let Hx := fresh "Hx" in
  match goal with
  | |- context [int_mul_float _ ?scale] =>
      destruct (scaled data scale Hb) as (v & x & -> & Hx);
      cbn [mbind result_bind]; rewrite Hx; by eexists
  end.

(** Takes apart a hypothesis that a routine returned [Ok], with the
    inversion lemma [inv] of the bind. *)
Ltac invert_ok inv H :=
  repeat match type of H with
         | (_ ≫= _) = Ok _ => apply inv in H as (? & _ & H)
         | (if ?c then _ else _) = Ok _ => destruct c
         end;
  cbn [mret result_ret] in H; injection H as <-.

(** ** Bytes and bit operations *)

Lemma byte_of_is_byte v i : is_byte (byte_of v i).
Proof. unfold is_byte, byte_of. apply Z.mod_pos_bound. lia. Qed.

Lemma lor_low_add hi lo k :
  0 <= k → 0 <= lo < 2 ^ k → Z.lor (Z.shiftl hi k) lo = hi * 2 ^ k + lo.
Proof.
  intros Hk Hlo.
  assert (Hdisj : Z.land (Z.shiftl hi k) lo = 0).
  { apply Z.bits_inj'. intros n Hn.
    rewrite Z.land_spec, Z.bits_0.
    destruct (Z.lt_ge_cases n k) as [Hlt | Hge].
    - rewrite Z.shiftl_spec_low by lia. reflexivity.
    - rewrite <- (Z.mod_small lo (2 ^ k)) by lia.
      rewrite Z.mod_pow2_bits_high by lia. apply andb_false_r. }
  pose proof (Z.add_lor_land (Z.shiftl hi k) lo) as Hadd.
  rewrite Hdisj, Z.shiftl_mul_pow2 in Hadd by lia.
  rewrite Z.shiftl_mul_pow2 by lia. lia.
Qed.

Lemma lor_add_low lo hi k :
  0 <= k → 0 <= lo < 2 ^ k → Z.lor lo (Z.shiftl hi k) = hi * 2 ^ k + lo.
Proof. intros. rewrite Z.lor_comm. by apply lor_low_add. Qed.

(** Testing one bit with [&]. *)
Lemma land_pow2_eqb raw n :
  0 <= n → (Z.land raw (2 ^ n) =? 0) = negb (Z.testbit raw n).
Proof.
  intros Hn. destruct (Z.testbit raw n) eqn:Hbit; simpl.
  - apply Z.eqb_neq. intros Hz.
    assert (Z.testbit (Z.land raw (2 ^ n)) n = true) as Hc
      by (rewrite Z.land_spec, Hbit, Z.pow2_bits_true by lia; reflexivity).
    rewrite Hz, Z.bits_0 in Hc. discriminate.
  - apply Z.eqb_eq, Z.bits_inj'. intros m Hm.
    rewrite Z.land_spec, Z.bits_0, Z.pow2_bits_eqb by lia.
    destruct (Z.eqb_spec n m) as [-> | _]; [by rewrite Hbit | apply andb_false_r].
Qed.

Lemma top_bit_lt raw n :
  0 <= n → 0 <= raw < 2 ^ (n + 1) → negb (Z.testbit raw n) = (raw <? 2 ^ n).
Proof.
  intros Hn Hraw. rewrite Z.pow_add_r, Z.pow_1_r in Hraw by lia.
  rewrite Z.testbit_eqb by lia.
  assert (0 < 2 ^ n) by (apply Z.pow_pos_nonneg; lia).
  destruct (Z.ltb_spec raw (2 ^ n)).
  - rewrite Z.div_small by lia. reflexivity.
  - assert (raw / 2 ^ n = 1) as -> by (symmetry; apply Z.div_unique with (r := raw - 2 ^ n); lia).
    reflexivity.
Qed.

(** The bytes of [v], put together again, are [v] modulo the width. *)
Lemma bytes16_sum v : byte_of v 1 * 2 ^ 8 + byte_of v 0 = v mod 2 ^ 16.
Proof.
  unfold byte_of. change (2 ^ (8 * 0)) with 1. change (2 ^ (8 * 1)) with 256.
  change (2 ^ 8) with 256. change (2 ^ 16) with (256 * 256).
  rewrite Z.div_1_r, Z.rem_mul_r by lia. lia.
Qed.

Lemma signed_mod v width :
  0 < width → - 2 ^ (width - 1) <= v < 2 ^ (width - 1) →
  signed width (v mod 2 ^ width) = v.
Proof.
  intros Hw Hv. unfold signed.
  assert (2 ^ width = 2 * 2 ^ (width - 1)) as Hpow
    by (rewrite <- Z.pow_succ_r by lia; f_equal; lia).
  destruct (Z.lt_ge_cases v 0).
  - assert (v mod 2 ^ width = v + 2 ^ width) as ->
      by (symmetry; apply Z.mod_unique with (q := -1); lia).
    destruct (Z.ltb_spec (v + 2 ^ width) (2 ^ (width - 1))); lia.
  - rewrite Z.mod_small by lia.
    destruct (Z.ltb_spec v (2 ^ (width - 1))); lia.
Qed.

Lemma mod_next_byte v k :
  0 <= k → v mod 2 ^ (8 * (k + 1)) = byte_of v k * 2 ^ (8 * k) + v mod 2 ^ (8 * k).
Proof.
  intros Hk. unfold byte_of.
  replace (8 * (k + 1)) with (8 * k + 8) by lia.
  rewrite Z.pow_add_r by lia. change (2 ^ 8) with 256.
  assert (0 < 2 ^ (8 * k)) by (apply Z.pow_pos_nonneg; lia).
  rewrite Z.rem_mul_r by lia. lia.
Qed.

Lemma bytes40_sum v :
  byte_of v 4 * 2 ^ 32 + byte_of v 3 * 2 ^ 24 + byte_of v 2 * 2 ^ 16
  + byte_of v 1 * 2 ^ 8 + byte_of v 0 = v mod 2 ^ 40.
Proof.
  pose proof (mod_next_byte v 4 ltac:(lia)) as H4.
  pose proof (mod_next_byte v 3 ltac:(lia)) as H3.
  pose proof (mod_next_byte v 2 ltac:(lia)) as H2.
  pose proof (mod_next_byte v 1 ltac:(lia)) as H1.
  pose proof (mod_next_byte v 0 ltac:(lia)) as H0.
  change (8 * (4 + 1)) with 40 in H4. change (8 * 4) with 32 in H4.
  change (8 * (3 + 1)) with 32 in H3. change (8 * 3) with 24 in H3.
  change (8 * (2 + 1)) with 24 in H2. change (8 * 2) with 16 in H2.
  change (8 * (1 + 1)) with 16 in H1. change (8 * 1) with 8 in H1.
  change (8 * (0 + 1)) with 8 in H0. change (2 ^ (8 * 0)) with 1 in H0.
  rewrite Z.mod_1_r in H0. lia.
Qed.

Lemma lor_mult_add a lo k :
  0 <= k → 0 <= lo < 2 ^ k → (∃ q, a = q * 2 ^ k) → Z.lor a lo = a + lo.
Proof.
  intros Hk Hlo [q ->]. rewrite <- Z.shiftl_mul_pow2 by lia.
  rewrite lor_low_add by lia. by rewrite Z.shiftl_mul_pow2 by lia.
Qed.

(** The two's complement adjustment of the 16-bit routines. *)
Lemma adjust16 raw :
  (if raw >? 32767 then raw - 65536 else raw) = signed 16 raw.
Proof.
  unfold signed. change (2 ^ (16 - 1)) with 32768. change (2 ^ 16) with 65536.
  destruct (Z.gtb_spec raw 32767), (Z.ltb_spec raw 32768); lia.
Qed.

(** ** Field extraction on a list that is long enough *)

Lemma index_int_nat data (k : nat) : index_int data (Z.of_nat k) = index data k.
Proof.
  unfold index_int. destruct (Z.ltb_spec (Z.of_nat k) 0); [lia |]. by rewrite Nat2Z.id.
Qed.

(** The helpers at an offset that is not negative. *)
Lemma parse_le_int16_nat data (k : nat) :
  parse_le_int16 data (Z.of_nat k)
  = if (length data <? k + 2)%nat then Ok 0
    else lo ← index data k; hi ← index data (k + 1);
         Ok (if Z.lor lo (Z.shiftl hi 8) >? 32767
             then Z.lor lo (Z.shiftl hi 8) - 65536 else Z.lor lo (Z.shiftl hi 8)).
Proof.
  unfold parse_le_int16.
  replace (Z.of_nat k + 1) with (Z.of_nat (k + 1)) by lia. rewrite !index_int_nat.
  destruct (Z.ltb_spec (Z.of_nat (length data)) (Z.of_nat k + 2)),
    (Nat.ltb_spec (length data) (k + 2)); try lia; done.
Qed.

Lemma parse_be_int16_nat data (k : nat) :
  parse_be_int16 data (Z.of_nat k)
  = if (length data <? k + 2)%nat then Ok 0
    else hi ← index data k; lo ← index data (k + 1);
         Ok (if Z.lor (Z.shiftl hi 8) lo >? 32767
             then Z.lor (Z.shiftl hi 8) lo - 65536 else Z.lor (Z.shiftl hi 8) lo).
Proof.
  unfold parse_be_int16.
  replace (Z.of_nat k + 1) with (Z.of_nat (k + 1)) by lia. rewrite !index_int_nat.
  destruct (Z.ltb_spec (Z.of_nat (length data)) (Z.of_nat k + 2)),
    (Nat.ltb_spec (length data) (k + 2)); try lia; done.
Qed.

(** The field at offset 1 is the field at offset 0 of the tail. *)
Lemma parse_le_int16_tail b data :
  parse_le_int16 (b :: data) 1 = parse_le_int16 data 0.
Proof. by rewrite (parse_le_int16_nat _ 1), (parse_le_int16_nat _ 0). Qed.

Lemma parse_le_int16_bytes lo hi rest :
  is_byte lo →
  parse_le_int16 (lo :: hi :: rest) 0 = Ok (signed 16 (hi * 2 ^ 8 + lo)).
Proof.
  intros Hlo. rewrite (parse_le_int16_nat _ 0); simpl.
  rewrite lor_add_low by (unfold is_byte in Hlo; lia).
  by rewrite adjust16.
Qed.

Lemma parse_be_int16_bytes hi lo rest :
  is_byte lo →
  parse_be_int16 (hi :: lo :: rest) 0 = Ok (signed 16 (hi * 2 ^ 8 + lo)).
Proof.
  intros Hlo. rewrite (parse_be_int16_nat _ 0); simpl.
  rewrite lor_low_add by (unfold is_byte in Hlo; lia).
  by rewrite adjust16.
Qed.

Lemma parse_ivt_int40_bytes b0 b1 b2 b3 b4 b5 rest :
  is_byte b1 → is_byte b2 → is_byte b3 → is_byte b4 → is_byte b5 →
  parse_ivt_int40 (b0 :: b1 :: b2 :: b3 :: b4 :: b5 :: rest)
  = Ok (signed 40 (b1 * 2 ^ 32 + b2 * 2 ^ 24 + b3 * 2 ^ 16 + b4 * 2 ^ 8 + b5)).
Proof.
  unfold is_byte. intros H1 H2 H3 H4 H5. unfold parse_ivt_int40; simpl.
  rewrite !Z.shiftl_mul_pow2 by lia.
  rewrite (lor_mult_add (b1 * 2 ^ 32) (b2 * 2 ^ 24) 32)
    by (lia || (exists b1; lia)).
  rewrite (lor_mult_add _ (b3 * 2 ^ 16) 24)
    by (lia || (exists (b1 * 2 ^ 8 + b2); lia)).
  rewrite (lor_mult_add _ (b4 * 2 ^ 8) 16)
    by (lia || (exists (b1 * 2 ^ 16 + b2 * 2 ^ 8 + b3); lia)).
  rewrite (lor_mult_add _ b5 8)
    by (lia || (exists (b1 * 2 ^ 24 + b2 * 2 ^ 16 + b3 * 2 ^ 8 + b4); lia)).
  set (raw := b1 * 2 ^ 32 + b2 * 2 ^ 24 + b3 * 2 ^ 16 + b4 * 2 ^ 8 + b5).
  change 0x8000000000 with (2 ^ 39).
  rewrite land_pow2_eqb, (top_bit_lt raw 39) by (subst raw; lia).
  unfold signed. change (40 - 1) with 39.
  by destruct (raw <? 2 ^ 39).
Qed.

(** ** Round trips (C3, C7) *)

(** C3. For every integer [v] with [-32768 <= v <= 32767], the two bytes of
    [v] in little-endian order decode to [v] with [parse_le_int16] at
    offset 0, and the two bytes of [v] in big-endian order decode to [v]
    with [parse_be_int16] at offset 0; bytes that follow the two do not
    matter. *)
Theorem int16_roundtrip (v : Z) (rest : list Z) :
  -32768 <= v <= 32767 →
  parse_le_int16 (le_bytes16 v ++ rest) 0 = Ok v
  ∧ parse_be_int16 (be_bytes16 v ++ rest) 0 = Ok v.
Proof.
  intros Hv. unfold le_bytes16, be_bytes16; simpl.
  rewrite parse_le_int16_bytes, parse_be_int16_bytes by apply byte_of_is_byte.
  rewrite bytes16_sum, (signed_mod v 16) by (simpl; lia).
  done.
Qed.

Lemma int16_roundtrip_witness :
  parse_le_int16 (le_bytes16 (-2) ++ []) 0 = Ok (-2)
  ∧ parse_be_int16 (be_bytes16 (-2) ++ []) 0 = Ok (-2).
Proof. apply (int16_roundtrip (-2) []). lia. Defined.

(** C7. For every integer [v] with [-2^39 <= v <= 2^39 - 1], a list of at
    least six bytes that holds the five bytes of [v], most significant
    first, at positions 1 to 5 decodes to [v] with [parse_ivt_int40],
    whatever byte 0 and the bytes after position 5 are. *)
Theorem ivt_int40_roundtrip (v b0 : Z) (rest : list Z) :
  - 2 ^ 39 <= v <= 2 ^ 39 - 1 →
  parse_ivt_int40 (b0 :: be_bytes40 v ++ rest) = Ok v.
Proof.
  intros Hv. unfold be_bytes40.
  change (b0 :: [byte_of v 4; byte_of v 3; byte_of v 2; byte_of v 1; byte_of v 0] ++ rest)
    with (b0 :: byte_of v 4 :: byte_of v 3 :: byte_of v 2 :: byte_of v 1
             :: byte_of v 0 :: rest).
  rewrite parse_ivt_int40_bytes by apply byte_of_is_byte.
  rewrite bytes40_sum, (signed_mod v 40) by (simpl; lia).
  done.
Qed.

Lemma ivt_int40_roundtrip_witness :
  parse_ivt_int40 (255 :: be_bytes40 (-1000) ++ [7]) = Ok (-1000).
Proof. apply (ivt_int40_roundtrip (-1000) 255 [7]). lia. Defined.

(** ** Conversion of a small [int] to [float] *)

Lemma digits2_pos_bounds m :
  2 ^ (Z.pos (digits2_pos m) - 1) <= Z.pos m < 2 ^ Z.pos (digits2_pos m).
Proof.
  induction m as [m IH | m IH |]; simpl digits2_pos.
  - rewrite Pos2Z.inj_succ, Z.pow_succ_r by lia.
    replace (Z.succ (Z.pos (digits2_pos m)) - 1)
      with (Z.succ (Z.pos (digits2_pos m) - 1)) by lia.
    rewrite Z.pow_succ_r by lia. lia.
  - rewrite Pos2Z.inj_succ, Z.pow_succ_r by lia.
    replace (Z.succ (Z.pos (digits2_pos m)) - 1)
      with (Z.succ (Z.pos (digits2_pos m) - 1)) by lia.
    rewrite Z.pow_succ_r by lia. lia.
  - simpl. lia.
Qed.

Lemma digits2_pos_shift m p :
  digits2_pos (Pos.iter xO m p) = (digits2_pos m + p)%positive.
Proof.
  induction p as [| p IH] using Pos.peano_ind.
  - simpl. lia.
  - rewrite Pos.iter_succ. simpl. rewrite IH. lia.
Qed.

Lemma binary_round_aux_exact s m e :
  Z.pos (digits2_pos m) = 53 → -1074 <= e <= 971 →
  binary_round_aux prec emax s (Z.pos m) e loc_Exact = S754_finite s m e.
Proof.
  intros Hd He.
  assert (Hshift : fexp prec emax (Z.pos (digits2_pos m) + e) - e = 0).
  { unfold fexp, SpecFloat.emin, prec, emax. rewrite Hd. lia. }
  unfold binary_round_aux, shr_fexp. cbn [Zdigits2]. rewrite Hshift. cbn.
  rewrite Hshift. cbn.
  destruct (Z.leb_spec e (emax - prec)) as [_ | Hgt]; [done |].
  unfold emax, prec in Hgt. lia.
Qed.

Lemma binary_round_small s m :
  Z.pos m < 2 ^ 53 →
  ∃ m' e', binary_round prec emax s m 0 = S754_finite s m' e'.
Proof.
  intros Hm. pose proof (digits2_pos_bounds m) as [Hlo Hhi].
  set (d := Z.pos (digits2_pos m)) in *.
  assert (Hd : 1 <= d <= 53).
  { split; [subst d; lia |].
    destruct (Z.le_gt_cases d 53) as [|Hgt]; [done |].
    assert (2 ^ 53 <= 2 ^ (d - 1)) by (apply Z.pow_le_mono_r; lia). lia. }
  unfold binary_round.
  assert (Hfexp : fexp prec emax (d + 0) = d - 53)
    by (unfold fexp, SpecFloat.emin, prec, emax; lia).
  fold d. rewrite Hfexp. unfold shl_align.
  destruct (d - 53 - 0) as [| p | p] eqn:Hsub; [| lia |].
  - eexists _, _. apply binary_round_aux_exact; [fold d |]; lia.
  - eexists _, _. apply binary_round_aux_exact; [| lia].
    rewrite digits2_pos_shift, Pos2Z.inj_add. fold d. lia.
Qed.

(** An [int] of fewer than 54 bits converts without raising. *)
Lemma float_of_int_small n :
  - 2 ^ 53 < n < 2 ^ 53 → float_of_int n = Ok (float_lit n).
Proof.
  intros Hn. unfold float_of_int, float_lit.
  destruct n as [| m | m]; simpl binary_normalize.
  - done.
  - destruct (binary_round_small false m) as (m' & e' & ->); [lia | done].
  - destruct (binary_round_small true m) as (m' & e' & ->); [lia | done].
Qed.

Lemma int_mul_float_small n x :
  - 2 ^ 53 < n < 2 ^ 53 → int_mul_float n x = Ok (fmul (float_lit n) x).
Proof. intros Hn. unfold int_mul_float. by rewrite float_of_int_small. Qed.

Lemma signed_bounds width raw :
  0 < width → 0 <= raw < 2 ^ width →
  - 2 ^ (width - 1) <= signed width raw < 2 ^ (width - 1).
Proof.
  intros Hw Hraw. unfold signed.
  assert (2 ^ width = 2 * 2 ^ (width - 1)) as Hpow
    by (rewrite <- Z.pow_succ_r by lia; f_equal; lia).
  destruct (Z.ltb_spec raw (2 ^ (width - 1))); lia.
Qed.

(** ** The multiplexed frame (C2) *)

Lemma mux_signals_unknown sel :
  sel ≠ 0x30 → sel ≠ 0xEB → sel ≠ 0x20 → sel ≠ 0x49 → sel ≠ 0x4A →
  mux_signals !! sel = None.
Proof.
  intros. unfold mux_signals; simpl.
  by rewrite !lookup_insert_ne, lookup_empty by done.
Qed.

(** C2. On a payload [sel :: lo :: hi :: rest] whose second and third
    elements are bytes, the multiplexed routine reads the signed
    little-endian 16-bit value of [lo], [hi]; for a known selector the
    result is the one signal of that selector, the value times its scale;
    for any other selector it is the raw value under the label made of
    [Mux] and the selector in hexadecimal, not an error. Through [decode]
    under id 0x181: selector 0x30 with bytes 0x58, 0x02 gives RPM = 600.0,
    and selector 0xFF with bytes 0x01, 0x00 gives [Mux 0xff] = 1. *)
Theorem mux_dispatch (sel lo hi : Z) (rest : list Z) :
  is_byte lo → is_byte hi →
  decode_inverter_multiplexed (sel :: lo :: hi :: rest)
  = Ok (match mux_signals !! sel with
        | Some (name, scale) =>
            [(name, VFloat (fmul (float_lit (signed 16 (hi * 2 ^ 8 + lo))) scale))]
        | None => [("Mux " ++ hex sel, VInt (signed 16 (hi * 2 ^ 8 + lo)))]
        end)
  ∧ decode "0x181" ["30"; "58"; "02"] = Signals [("RPM", VFloat (float_lit 600))]
  ∧ decode "0x181" ["FF"; "01"; "00"] = Signals [("Mux 0xff", VInt 1)].
Proof.
  intros Hlo Hhi. split; [| split; vm_compute; reflexivity].
  unfold decode_inverter_multiplexed.
  change (length (sel :: lo :: hi :: rest) <? 3)%nat with false.
  change (index (sel :: lo :: hi :: rest) 0) with (Ok sel).
  rewrite parse_le_int16_tail.
  rewrite parse_le_int16_bytes by done. cbn [mbind result_bind].
  set (raw := signed 16 (hi * 2 ^ 8 + lo)).
  assert (Hraw : - 2 ^ 53 < raw < 2 ^ 53).
  { pose proof (signed_bounds 16 (hi * 2 ^ 8 + lo)) as Hb.
    unfold is_byte in *. subst raw. change (2 ^ (16 - 1)) with 32768 in Hb. lia. }
  destruct (Z.eqb_spec sel 0x30) as [-> | ?];
    [by rewrite int_mul_float_small |].
  destruct (Z.eqb_spec sel 0xEB) as [-> | ?];
    [by rewrite int_mul_float_small |].
  destruct (Z.eqb_spec sel 0x20) as [-> | ?];
    [by rewrite int_mul_float_small |].
  destruct (Z.eqb_spec sel 0x49) as [-> | ?];
    [by rewrite int_mul_float_small |].
  destruct (Z.eqb_spec sel 0x4A) as [-> | ?];
    [by rewrite int_mul_float_small |].
  by rewrite mux_signals_unknown.
Qed.

Lemma mux_dispatch_witness :
  decode_inverter_multiplexed [0xEB; 0x5B; 0x02; 0]
  = Ok [("DC Bus", VFloat (fmul (float_lit 603) f_0_1))].
Proof.
  pose proof (mux_dispatch 0xEB 0x5B 0x02 [0]) as [H _];
    [unfold is_byte; lia | unfold is_byte; lia |].
  exact H.
Defined.

(** ** The 40-bit sensor frame (C4) *)

(** C4, as the code has it. In a six-element payload the 40-bit value is
    read from positions 1 to 5, so the bytes [_, 00, 00, 03, E8, 00] hold
    256000 and [decode_ivt_current] renders them as "256.00 A"; the text
    "1.00 A" is what the bytes [_, 00, 00, 00, 03, E8], which hold 1000,
    produce. Byte 0 is not read. *)
Theorem ivt_current_text (b0 : Z) :
  decode_ivt_current [b0; 0x00; 0x00; 0x03; 0xE8; 0x00]
  = Ok [("Current", VStr "256.00 A")]
  ∧ decode_ivt_current [b0; 0x00; 0x00; 0x00; 0x03; 0xE8]
    = Ok [("Current", VStr "1.00 A")].
Proof. split; vm_compute; reflexivity. Qed.

(** The claim fails as written: the frame it names does not give "1.00 A". *)
Lemma ivt_current_text_counterexample :
  parse_ivt_int40 [0x00; 0x00; 0x00; 0x03; 0xE8; 0x00] = Ok 256000
  ∧ decode "0x521" ["00"; "00"; "00"; "03"; "E8"; "00"]
    = Signals [("Current", VStr "256.00 A")]
  ∧ decode_ivt_current [0x00; 0x00; 0x00; 0x03; 0xE8; 0x00]
    ≠ Ok [("Current", VStr "1.00 A")].
Proof.
  split; [| split]; [by vm_compute | by vm_compute |].
  vm_compute. discriminate.
Qed.

(** ** The registries *)

Lemma decoder_table_keys_nodup : NoDup (decoder_table.*1).
Proof. compute_done. Qed.

(** The routines of [DECODER_MAP] are those of its sixteen entries. *)
Lemma DECODER_MAP_lookup can_id f :
  DECODER_MAP !! can_id = Some f ↔ (can_id, f) ∈ decoder_table.
Proof.
  unfold DECODER_MAP. symmetry.
  apply elem_of_list_to_map, decoder_table_keys_nodup.
Qed.

Lemma DECODER_MAP_entry can_id f :
  (can_id, f) ∈ decoder_table → DECODER_MAP !! can_id = Some f.
Proof. apply DECODER_MAP_lookup. Qed.

Lemma names_subset_decoders : dom CAN_ID_NAMES ⊆ dom DECODER_MAP.
Proof.
  intros k Hk. apply elem_of_dom in Hk as [name Hname].
  apply elem_of_dom.
  unfold CAN_ID_NAMES in Hname. apply elem_of_list_to_map_2 in Hname.
  list_cases Hname; injection Hname as -> _; by eexists.
Qed.

Lemma unregistered_has_no_name can_id :
  DECODER_MAP !! can_id = None → CAN_ID_NAMES !! can_id = None.
Proof.
  intros Hnone. apply not_elem_of_dom. intros Hin.
  apply names_subset_decoders, elem_of_dom in Hin as [f Hf]. congruence.
Qed.

(** ** The engine boundary (C6, C8) *)

Lemma bind_Ok {A B} (m : result A) (k : A → result B) (b : B) :
  m ≫= k = Ok b → ∃ a, m = Ok a ∧ k a = Ok b.
Proof. destruct m as [a | e]; [by exists a | discriminate]. Qed.

(** A result that [decode_try] returns is a signal mapping or the text
    [No Decoder]. *)
Lemma decode_try_Ok can_id_str data r :
  decode_try can_id_str data = Ok r →
  (∃ d, r = Signals d) ∨ r = Text "No Decoder".
Proof.
  unfold decode_try. intros H.
  apply bind_Ok in H as (can_id & _ & H).
  apply bind_Ok in H as (data_ints & _ & H).
  destruct (DECODER_MAP !! can_id) as [decoder_func |].
  - apply bind_Ok in H as (d & _ & [= <-]). left. by exists d.
  - injection H as <-. by right.
Qed.

(** C6. For every id string and every list of tokens, [decode] returns a
    signal mapping, the text [No Decoder], or the text [Err: ] followed by
    the message of the exception that its [try] block raised: whatever is
    raised while the id and the tokens are converted or inside the decode
    routine is caught. So a payload too short for a routine that indexes
    it, a byte value out of range and a malformed hexadecimal token or id
    each give an [Err: ] text. *)
Theorem decode_never_raises (can_id_str : string) (data : list string) :
  ((∃ d, decode can_id_str data = Signals d)
   ∨ decode can_id_str data = Text "No Decoder"
   ∨ (∃ e, decode_try can_id_str data = Raise e
           ∧ decode can_id_str data = Text ("Err: " ++ str_exn e)))
  ∧ decode "0x100" [] = Text "Err: list index out of range"
  ∧ decode "0x105" ["1FF"] = Text "Err: bytes must be in range(0, 256)"
  ∧ decode "0x181" ["30"; "ZZ"; "02"]
    = Text "Err: invalid literal for int() with base 16: 'ZZ'"
  ∧ decode "0xCAN" ["30"]
    = Text "Err: invalid literal for int() with base 16: '0xCAN'".
Proof.
  split; [| repeat split; vm_compute; reflexivity].
  unfold decode. destruct (decode_try can_id_str data) as [r | e] eqn:Htry.
  - apply decode_try_Ok in Htry as [[d ->] | ->]; [left; by exists d | by right; left].
  - right; right. by exists e.
Qed.

(** An [Err: ] text is not the [No Decoder] text. *)
Lemma err_text_not_no_decoder msg : Text ("Err: " ++ msg) ≠ Text "No Decoder".
Proof. discriminate. Qed.

(** With an id that has a decoder, [decode] never answers [No Decoder]. *)
Lemma registered_not_no_decoder can_id_str can_id f data :
  int16 can_id_str = Ok can_id → DECODER_MAP !! can_id = Some f →
  decode can_id_str data ≠ Text "No Decoder".
Proof.
  intros Hid Hf. unfold decode, decode_try. rewrite Hid; cbn [mbind result_bind].
  destruct (mapM int16 data) as [data_ints | e]; cbn [mbind result_bind];
    [| apply err_text_not_no_decoder].
  rewrite Hf. destruct (f data_ints) as [d | e]; cbn [mbind result_bind];
    [discriminate | apply err_text_not_no_decoder].
Qed.

(** C8. For an id string that reads as the hexadecimal number [can_id],
    with no entry for [can_id] in [DECODER_MAP], [get_name] answers
    [Unknown ID] and [decode] answers [No Decoder] on every payload whose
    tokens all read as hexadecimal numbers, which is the type of its data
    argument; the tokens are converted before the registry is consulted, so
    on any other payload the answer is the [Err: ] text of the token that
    failed. *)
Theorem unregistered_id (can_id_str : string) (can_id : Z) :
  int16 can_id_str = Ok can_id →
  DECODER_MAP !! can_id = None →
  get_name can_id_str = "Unknown ID"
  ∧ (∀ data data_ints,
       mapM int16 data = Ok data_ints → decode can_id_str data = Text "No Decoder")
  ∧ (∀ data,
       decode can_id_str data = Text "No Decoder"
       ∨ ∃ e, mapM int16 data = Raise e
              ∧ decode can_id_str data = Text ("Err: " ++ str_exn e)).
Proof.
  intros Hid Hnone.
  assert (Hdec : ∀ data,
             decode can_id_str data
             = match mapM int16 data with
               | Ok _ => Text "No Decoder"
               | Raise e => Text ("Err: " ++ str_exn e)
               end).
  { intros data. unfold decode, decode_try. rewrite Hid; cbn [mbind result_bind].
    destruct (mapM int16 data); cbn [mbind result_bind]; [by rewrite Hnone | done]. }
  split; [| split].
  - unfold get_name. rewrite Hid.
    by rewrite (unregistered_has_no_name can_id Hnone).
  - intros data data_ints Hdata. by rewrite Hdec, Hdata.
  - intros data. rewrite Hdec.
    destruct (mapM int16 data) as [data_ints | e]; [by left | right; by exists e].
Qed.

Lemma unregistered_id_witness :
  get_name "0x999" = "Unknown ID" ∧ decode "0x999" ["01"; "02"] = Text "No Decoder".
Proof.
  destruct (unregistered_id "0x999" 0x999) as (Hname & Hdec & _);
    [by vm_compute | by vm_compute |].
  split; [exact Hname |]. apply (Hdec _ [1; 2]). by vm_compute.
Defined.

(** ** Routines on byte payloads *)

Lemma bytes_hex_bytes data :
  Forall is_byte data → bytes_hex data = Ok (String.concat "" (hex2 <$> data)).
Proof.
  intros Hb. unfold bytes_hex.
  assert (forallb (λ b, in_range 0 255 b) data = true) as ->; [| done].
  apply forallb_forall. intros b Hin.
  apply list_elem_of_In in Hin. rewrite Forall_forall in Hb. specialize (Hb b Hin).
  unfold is_byte in Hb. unfold in_range. apply andb_true_iff. lia.
Qed.

Lemma index_head b rest : index (b :: rest) 0 = Ok b.
Proof. reflexivity. Qed.

(** On bytes, the 40-bit routine returns a 40-bit signed value, whatever the
    length of the list. *)
Lemma parse_ivt_int40_range data :
  Forall is_byte data →
  ∃ v, parse_ivt_int40 data = Ok v ∧ - 2 ^ 39 <= v < 2 ^ 39.
Proof.
  intros Hb.
  destruct data as [| b0 [| b1 [| b2 [| b3 [| b4 [| b5 rest]]]]]];
    try (exists 0; split; [reflexivity | lia]).
  repeat match goal with
         | H : Forall _ (_ :: _) |- _ => apply Forall_cons in H as [? H]
         end.
  rewrite parse_ivt_int40_bytes by done. eexists; split; [done |].
  unfold is_byte in *. apply (signed_bounds 40); lia.
Qed.

Lemma ivt_scaled_ok data scale :
  Forall is_byte data →
  ∃ v x, parse_ivt_int40 data = Ok v ∧ int_mul_float v scale = Ok x.
Proof.
  intros Hb. destruct (parse_ivt_int40_range data Hb) as (v & Hv & Hrange).
  exists v, (fmul (float_lit v) scale). split; [done |].
  apply int_mul_float_small. lia.
Qed.

(** ** Ids with a decoder and no display name (C10) *)

Lemma names_strict_subset_decoders : dom CAN_ID_NAMES ⊂ dom DECODER_MAP.
Proof.
  split; [apply names_subset_decoders |].
  intros Hsub. assert (0x105 ∈ dom CAN_ID_NAMES) as Hin.
  { apply Hsub, elem_of_dom. by eexists. }
  apply elem_of_dom in Hin as [name Hname]. by vm_compute in Hname.
Qed.

Lemma unnamed_ids_char can_id :
  can_id ∈ unnamed_ids ↔ can_id ∈ dom DECODER_MAP ∧ can_id ∉ dom CAN_ID_NAMES.
Proof.
  split.
  - intros Hin. unfold unnamed_ids in Hin.
    list_cases Hin; subst can_id;
      (split; [apply elem_of_dom; by eexists | apply not_elem_of_dom; reflexivity]).
  - intros [Hdec Hname]. apply elem_of_dom in Hdec as [f Hf].
    apply DECODER_MAP_lookup in Hf. unfold decoder_table in Hf.
    list_cases Hf; injection Hf as -> _;
      first [ by (exfalso; apply Hname, elem_of_dom; eexists)
            | unfold unnamed_ids; set_solver ].
Qed.

(** C10. The key set of [CAN_ID_NAMES] is a strict subset of that of
    [DECODER_MAP]; the ids in the difference are 0x105, 0x106, 0x175, 0x176,
    0x526, 0x527 and 0x528. For an id string that reads as one of them,
    [get_name] returns [Unknown ID] while [decode] never returns
    [No Decoder], and returns a signal mapping on every payload of at least
    one token whose tokens read as byte values. *)
Theorem decoder_without_name (can_id_str : string) (can_id : Z) :
  can_id ∈ unnamed_ids →
  int16 can_id_str = Ok can_id →
  dom CAN_ID_NAMES ⊂ dom DECODER_MAP
  ∧ (∀ k, k ∈ unnamed_ids ↔ k ∈ dom DECODER_MAP ∧ k ∉ dom CAN_ID_NAMES)
  ∧ get_name can_id_str = "Unknown ID"
  ∧ (∀ data, decode can_id_str data ≠ Text "No Decoder")
  ∧ (∀ data data_ints,
       mapM int16 data = Ok data_ints → data_ints ≠ [] → Forall is_byte data_ints →
       ∃ d, decode can_id_str data = Signals d).
Proof.
  intros Hin Hid.
  split; [apply names_strict_subset_decoders |].
  split; [apply unnamed_ids_char |].
  pose proof Hin as Hunnamed. apply unnamed_ids_char in Hunnamed as [Hdec Hname].
  split; [| split].
  - unfold get_name. rewrite Hid.
    apply not_elem_of_dom in Hname. by rewrite Hname.
  - intros data. apply elem_of_dom in Hdec as [f Hf].
    by apply (registered_not_no_decoder can_id_str can_id f).
  - intros data data_ints Hdata Hne Hbytes.
    unfold decode, decode_try. rewrite Hid; cbn [mbind result_bind].
    rewrite Hdata; cbn [mbind result_bind].
    destruct data_ints as [| b rest]; [done |].
    unfold unnamed_ids in Hin.
    list_cases Hin; subst can_id.
    + rewrite (DECODER_MAP_entry _ decode_acu_info_1) by find_entry.
      cbn [mbind result_bind].
      unfold decode_acu_info_1. rewrite bytes_hex_bytes by done. by eexists.
    + rewrite (DECODER_MAP_entry _ decode_acu_info_2) by find_entry.
      cbn [mbind result_bind].
      unfold decode_acu_info_2. rewrite bytes_hex_bytes by done. by eexists.
    + rewrite (DECODER_MAP_entry _ decode_vcu_connected) by find_entry.
      cbn [mbind result_bind].
      unfold decode_vcu_connected. rewrite index_head. by eexists.
    + rewrite (DECODER_MAP_entry _ decode_vcu_reply) by find_entry.
      cbn [mbind result_bind].
      unfold decode_vcu_reply. rewrite index_head. by eexists.
    + rewrite (DECODER_MAP_entry _ decode_ivt_wattage) by find_entry.
      cbn [mbind result_bind]. unfold decode_ivt_wattage.
      destruct (ivt_scaled_ok (b :: rest) f_1_0 Hbytes) as (v & x & -> & Hx).
      cbn [mbind result_bind]. rewrite Hx. by eexists.
    + rewrite (DECODER_MAP_entry _ decode_ivt_current_counter) by find_entry.
      cbn [mbind result_bind]. unfold decode_ivt_current_counter.
      destruct (ivt_scaled_ok (b :: rest) f_1_0 Hbytes) as (v & x & -> & Hx).
      cbn [mbind result_bind]. rewrite Hx. by eexists.
    + rewrite (DECODER_MAP_entry _ decode_ivt_wattage_counter) by find_entry.
      cbn [mbind result_bind]. unfold decode_ivt_wattage_counter.
      destruct (ivt_scaled_ok (b :: rest) f_1_0 Hbytes) as (v & x & -> & Hx).
      cbn [mbind result_bind]. rewrite Hx. by eexists.
Qed.

Lemma decoder_without_name_witness :
  get_name "0x175" = "Unknown ID" ∧ ∃ d, decode "0x175" ["01"] = Signals d.
Proof.
  destruct (decoder_without_name "0x175" 0x175) as (_ & _ & Hname & _ & Hdec).
  - unfold unnamed_ids. set_solver.
  - by vm_compute.
  - split; [exact Hname |]. apply (Hdec ["01"] [1]).
    + by vm_compute.
    + discriminate.
    + repeat constructor; unfold is_byte; lia.
Defined.

(** ** Payloads that are too short (C1) *)

(** C1, as the code has it. On a payload shorter than 3 resp. 7 elements,
    [decode_inverter_multiplexed] and [decode_ui_temperatures] test the
    length first and return a short-message mapping under the key [Error].
    The routines built on [parse_le_int16], [parse_be_int16] and
    [parse_ivt_int40] also read no element of a payload that is too short,
    the helper testing the length first, but they do not return a short
    message: the helper gives 0 and the routine returns its usual mapping
    with the value 0 (shorter than 3 for 0x385 and 0x201, than 4 for 0x700,
    than 6 for the IVT ids). *)
Theorem short_payload (can_id : Z) (f : list Z → result dict) (data : list Z)
    (bound : nat) (d : dict) :
  DECODER_MAP !! can_id = Some f →
  short_behaviour !! can_id = Some (bound, d) →
  (length data < bound)%nat →
  f data = Ok d ∧ (short_message (Ok d) ↔ can_id = 0x181 ∨ can_id = 0x701).
Proof.
  intros Hf Hshort Hlen.
  unfold short_behaviour in Hshort. apply elem_of_list_to_map_2 in Hshort.
  apply DECODER_MAP_lookup in Hf. unfold decoder_table in Hf.
  list_cases Hshort; injection Hshort as -> -> ->;
    (list_cases Hf; first [discriminate Hf | injection Hf as ->]);
    (split; [short_lists data Hlen |]);
    (split;
     [ intros [msg Hmsg]; first [discriminate Hmsg | by left | by right]
     | intros [Hid | Hid]; first [discriminate Hid | by eexists] ]).
Qed.

Lemma short_payload_witness :
  decode_ui_temperatures [1; 2; 3] = Ok [("Error", VStr "Short")]
  ∧ (short_message (Ok [("Error", VStr "Short")]) ↔ 0x701 = 0x181 ∨ 0x701 = 0x701).
Proof.
  apply (short_payload 0x701 decode_ui_temperatures [1; 2; 3] 7).
  - apply DECODER_MAP_entry. find_entry.
  - by vm_compute.
  - simpl. lia.
Defined.

(** The claim fails as written. Of the four routines it names, run on the
    empty payload, [decode_acu_precharge] indexes out of range and the other
    three return their usual mapping with the value 0; none returns a
    short message. *)
Lemma short_payload_counterexample :
  ¬ (∀ can_id f data n,
       DECODER_MAP !! can_id = Some f → min_length !! can_id = Some n →
       (length data < n)%nat → short_message (f data))
  ∧ decode_acu_precharge [] = Raise (IndexError "list index out of range")
  ∧ decode_torque_command [] = Ok [("Torque Cmd", VInt 0)]
  ∧ decode_inverter_igbt_temp [] = Ok [("IGBT Temp (L)", VFloat f_zero)]
  ∧ decode_ui_voltages []
    = Ok [("UI V1", VFloat f_zero); ("UI V2", VFloat f_zero); ("UI V3", VFloat f_zero)].
Proof.
  split; [| repeat split; by vm_compute].
  intros Hclaim.
  destruct (Hclaim 0x201 decode_torque_command [] 3%nat) as [msg Hmsg].
  - apply DECODER_MAP_entry. find_entry.
  - by vm_compute.
  - simpl. lia.
  - vm_compute in Hmsg. discriminate Hmsg.
Qed.

(** ** The pipeline: one line through [parse_frame] *)


Lemma tree_values_item iid r tr :
  tree_exists iid tr = true → tree_values iid (tree_item iid r tr) = Some r.
Proof.
  unfold tree_exists, tree_values, tree_item.
  induction tr as [| [k v] tr IH]; simpl; [done |].
  destruct (String.eqb k iid) eqn:Hk; simpl.
  - by rewrite String.eqb_refl.
  - rewrite Hk. exact IH.
Qed.

Lemma tree_values_insert iid r tr :
  tree_exists iid tr = false → tree_values iid (tree_insert iid r tr) = Some r.
Proof.
  unfold tree_exists, tree_values, tree_insert.
  induction tr as [| [k v] tr IH]; simpl.
  - by rewrite String.eqb_refl.
  - destruct (String.eqb k iid) eqn:Hk; simpl; [done | exact IH].
Qed.

(** ** The 16-bit helpers at any offset *)

Lemma index_lookup data i b : data !! i = Some b → index data i = Ok b.
Proof. unfold index. by intros ->. Qed.

(** An index from [-len] to [len - 1] reads the element at the index
    reduced modulo [len]. *)
Lemma index_int_inside data i :
  - Z.of_nat (length data) <= i < Z.of_nat (length data) →
  ∃ b, data !! Z.to_nat (i mod Z.of_nat (length data)) = Some b
       ∧ index_int data i = Ok b.
Proof.
  intros Hi. unfold index_int.
  destruct (Z.ltb_spec i 0) as [Hneg | Hpos].
  - destruct (Z.leb_spec 0 (i + Z.of_nat (length data))) as [_ | Hlow]; [| lia].
    replace (i mod Z.of_nat (length data)) with (i + Z.of_nat (length data)).
    + destruct (lookup_lt_is_Some_2 data (Z.to_nat (i + Z.of_nat (length data))))
        as [b Hb]; [lia |].
      exists b. split; [done | by apply index_lookup].
    + apply Z.mod_unique with (q := -1); lia.
  - rewrite Z.mod_small by lia.
    destruct (lookup_lt_is_Some_2 data (Z.to_nat i)) as [b Hb]; [lia |].
    exists b. split; [done | by apply index_lookup].
Qed.

Lemma index_int_outside data i :
  i < - Z.of_nat (length data) ∨ Z.of_nat (length data) <= i →
  index_int data i = Raise (IndexError "list index out of range").
Proof.
  intros Hi. unfold index_int.
  destruct (Z.ltb_spec i 0) as [Hneg | Hpos].
  - destruct (Z.leb_spec 0 (i + Z.of_nat (length data))) as [Hin | _]; [lia | done].
  - unfold index. rewrite lookup_ge_None_2; [done | lia].
Qed.

Lemma signed16_range raw : 0 <= raw < 65536 → -32768 <= signed 16 raw <= 32767.
Proof.
  intros Hraw. pose proof (signed_bounds 16 raw) as Hb.
  change (2 ^ (16 - 1)) with 32768 in Hb. change (2 ^ 16) with 65536 in Hb. lia.
Qed.

(** A list that ends before [offset + 2]. *)
Lemma parse_le_int16_short data offset :
  Z.of_nat (length data) < offset + 2 → parse_le_int16 data offset = Ok 0.
Proof.
  intros Hlen. unfold parse_le_int16.
  by destruct (Z.ltb_spec (Z.of_nat (length data)) (offset + 2)); [| lia].
Qed.

Lemma parse_be_int16_short data offset :
  Z.of_nat (length data) < offset + 2 → parse_be_int16 data offset = Ok 0.
Proof.
  intros Hlen. unfold parse_be_int16.
  by destruct (Z.ltb_spec (Z.of_nat (length data)) (offset + 2)); [| lia].
Qed.

(** A list that holds the two elements of the field. *)
Lemma int16_field (data : list Z) offset :
  offset + 2 <= Z.of_nat (length data) → - Z.of_nat (length data) <= offset →
  ∃ a b, data !! Z.to_nat (offset mod Z.of_nat (length data)) = Some a
       ∧ data !! Z.to_nat ((offset + 1) mod Z.of_nat (length data)) = Some b
       ∧ parse_le_int16 data offset = Ok (signed 16 (Z.lor a (Z.shiftl b 8)))
       ∧ parse_be_int16 data offset = Ok (signed 16 (Z.lor (Z.shiftl a 8) b)).
Proof.
  intros Hlen Hlow.
  destruct (index_int_inside data offset) as (a & Ha & Hia); [lia |].
  destruct (index_int_inside data (offset + 1)) as (b & Hb & Hib); [lia |].
  exists a, b. split; [done |]. split; [done |].
  unfold parse_le_int16, parse_be_int16. rewrite Hia, Hib.
  destruct (Z.ltb_spec (Z.of_nat (length data)) (offset + 2)); [lia |].
  cbn [mbind result_bind mret result_ret]. by rewrite !adjust16.
Qed.

(** An offset below [-len]: the length test passes and the first index
    raises. *)
Lemma int16_field_below (data : list Z) offset :
  offset + 2 <= Z.of_nat (length data) → offset < - Z.of_nat (length data) →
  parse_le_int16 data offset = Raise (IndexError "list index out of range")
  ∧ parse_be_int16 data offset = Raise (IndexError "list index out of range").
Proof.
  intros Hlen Hlow. unfold parse_le_int16, parse_be_int16.
  rewrite (index_int_outside data offset) by lia.
  by destruct (Z.ltb_spec (Z.of_nat (length data)) (offset + 2)); [lia |].
Qed.

(** The value of a field of bytes. *)
Lemma parse_le_int16_at (data : list Z) (k : nat) lo hi :
  data !! k = Some lo → data !! (k + 1)%nat = Some hi → is_byte lo →
  parse_le_int16 data (Z.of_nat k) = Ok (signed 16 (hi * 2 ^ 8 + lo)).
Proof.
  intros Hlo Hhi Hb. rewrite parse_le_int16_nat.
  apply lookup_lt_Some in Hhi as Hlen.
  destruct (Nat.ltb_spec (length data) (k + 2)); [lia |].
  rewrite (index_lookup _ _ _ Hlo), (index_lookup _ _ _ Hhi).
  cbn [mbind result_bind]. rewrite adjust16, lor_add_low; [done | lia |].
  unfold is_byte in Hb. lia.
Qed.

Lemma parse_be_int16_at (data : list Z) (k : nat) hi lo :
  data !! k = Some hi → data !! (k + 1)%nat = Some lo → is_byte lo →
  parse_be_int16 data (Z.of_nat k) = Ok (signed 16 (hi * 2 ^ 8 + lo)).
Proof.
  intros Hhi Hlo Hb. rewrite parse_be_int16_nat.
  apply lookup_lt_Some in Hlo as Hlen.
  destruct (Nat.ltb_spec (length data) (k + 2)); [lia |].
  rewrite (index_lookup _ _ _ Hhi), (index_lookup _ _ _ Hlo).
  cbn [mbind result_bind]. rewrite adjust16, lor_low_add; [done | lia |].
  unfold is_byte in Hb. lia.
Qed.

(** On bytes the helpers return a 16-bit value wherever they return. *)
Lemma int16_range (data : list Z) offset :
  Forall is_byte data →
  -1 <= offset ∨ - Z.of_nat (length data) <= offset →
  (∃ v, parse_le_int16 data offset = Ok v ∧ -32768 <= v <= 32767)
  ∧ (∃ v, parse_be_int16 data offset = Ok v ∧ -32768 <= v <= 32767).
Proof.
  intros Hb Hoff.
  destruct (Z.lt_ge_cases (Z.of_nat (length data)) (offset + 2)) as [Hshort | Hlong].
  - rewrite parse_le_int16_short, parse_be_int16_short by done.
    split; exists 0; (split; [done | lia]).
  - destruct (int16_field data offset) as (a & b & Ha & Hb' & -> & ->); [lia | lia |].
    assert (is_byte a) as Hba by (eapply Forall_lookup_1; eauto).
    assert (is_byte b) as Hbb by (eapply Forall_lookup_1; eauto).
    unfold is_byte in Hba, Hbb.
    rewrite lor_add_low, lor_low_add by lia.
    split; (eexists; split; [done |]); apply signed16_range; lia.
Qed.

Lemma parse_le_int16_range (data : list Z) offset :
  Forall is_byte data → -1 <= offset →
  ∃ v, parse_le_int16 data offset = Ok v ∧ -32768 <= v <= 32767.
Proof. intros Hb Hoff. apply (int16_range data offset Hb). by left. Qed.

Lemma parse_be_int16_range (data : list Z) offset :
  Forall is_byte data → -1 <= offset →
  ∃ v, parse_be_int16 data offset = Ok v ∧ -32768 <= v <= 32767.
Proof. intros Hb Hoff. apply (int16_range data offset Hb). by left. Qed.

(** ** Rendering the decoded value *)

Lemma str_limit_large : 2 ^ 64 < str_limit.
Proof. by vm_compute. Qed.

Lemma str_of_int_small z : Z.abs z < 2 ^ 64 → str_of_int z = Ok (str_int z).
Proof.
  intros Hz. unfold str_of_int. pose proof str_limit_large as Hl.
  by destruct (Z.leb_spec str_limit (Z.abs z)); [lia |].
Qed.

(** Only an [int] of more than 4300 digits fails to render. *)
Lemma str_value_cases v :
  (∃ s, str_value v = Ok s ∧ ∀ z, v = VInt z → Z.abs z < str_limit)
  ∨ (∃ z, v = VInt z ∧ str_limit <= Z.abs z ∧ str_value v = Raise str_limit_exceeded).
Proof.
  destruct v as [z | x | b | s]; try (left; eexists; split; [reflexivity | done]).
  cbn [str_value]. unfold str_of_int.
  destruct (Z.leb_spec str_limit (Z.abs z)) as [Hbig | Hsmall].
  - right. by exists z.
  - left. eexists. split; [reflexivity |]. by intros z' [= <-].
Qed.

Lemma render_parts_cases (d : dict) :
  (∃ parts, mapM (λ kv, s ← str_value (snd kv); mret (fst kv ++ ": " ++ s)) d = Ok parts
            ∧ ∀ k z, (k, VInt z) ∈ d → Z.abs z < str_limit)
  ∨ (mapM (λ kv, s ← str_value (snd kv); mret (fst kv ++ ": " ++ s)) d
     = Raise str_limit_exceeded
     ∧ ∃ k z, (k, VInt z) ∈ d ∧ str_limit <= Z.abs z).
Proof.
  induction d as [| [k v] d IH]; cbn [mapM].
  - left. exists []. split; [done |]. intros k z Hin. by apply elem_of_nil in Hin.
  - cbn [fst snd].
    destruct (str_value_cases v) as [(s & -> & Hv) | (z & -> & Hz & ->)];
      cbn [mbind result_bind mret result_ret].
    + destruct IH as [(parts & -> & Hd) | (-> & k' & z & Hin & Hz)];
        cbn [mbind result_bind mret result_ret].
      * left. eexists. split; [reflexivity |]. intros k' z Hin.
        apply elem_of_cons in Hin as [[= <- <-] | Hin]; [by apply Hv | by apply (Hd k')].
      * right. split; [done |]. exists k', z. split; [by apply elem_of_cons; right | done].
    + right. split; [done |]. exists k, z. split; [by apply elem_of_cons; left | done].
Qed.

(** The decoded value renders unless it holds an [int] signal of more than
    4300 digits. *)
Lemma val_str_cases dec :
  (∃ vs, val_str dec = Ok vs ∧ ¬ oversized dec)
  ∨ (val_str dec = Raise str_limit_exceeded ∧ oversized dec).
Proof.
  destruct dec as [d | s]; cbn [val_str].
  - destruct (render_parts_cases d) as [(parts & -> & Hd) | (-> & k & z & Hin & Hz)];
      cbn [mbind result_bind mret result_ret].
    + left. eexists. split; [reflexivity |].
      intros (d' & k & z & [= <-] & Hin & Hz). specialize (Hd k z Hin). lia.
    + right. split; [done |]. by exists d, k, z.
  - left. exists s. split; [done |]. by intros (d & k & z & Hd & _).
Qed.

Lemma val_str_rendered dec : ¬ oversized dec → ∃ vs, val_str dec = Ok vs.
Proof.
  intros Hno. destruct (val_str_cases dec) as [(vs & Hvs & _) | [_ Hover]]; [| done].
  by exists vs.
Qed.

(** ** Lines that are counted and lines that are dropped *)

Lemma counted_id_tokens line cid :
  counted_id line = Some cid →
  ∃ p0 p1 data vs, tokens line = p0 :: p1 :: data ∧ cid = canonical_id p0
                   ∧ val_str (decode cid data) = Ok vs.
Proof.
  unfold counted_id. destruct (tokens line) as [| p0 [| p1 data]]; try discriminate.
  destruct (val_str (decode (canonical_id p0) data)) as [vs | e] eqn:Hvs; [| discriminate].
  intros [= <-]. by exists p0, p1, data, vs.
Qed.

Lemma counted_id_frame_id line cid : counted_id line = Some cid → frame_id line = Some cid.
Proof.
  intros (p0 & p1 & data & vs & Htok & -> & _)%counted_id_tokens.
  unfold frame_id. by rewrite Htok.
Qed.

Lemma counted_id_rendered line p0 p1 data vs :
  tokens line = p0 :: p1 :: data → val_str (decode (canonical_id p0) data) = Ok vs →
  counted_id line = Some (canonical_id p0).
Proof. intros Htok Hvs. unfold counted_id. by rewrite Htok, Hvs. Qed.

(** A line is counted under the id of its frame unless its decoded value
    holds an [int] signal of more than 4300 digits. *)
Lemma counted_id_cases line :
  counted_id line = frame_id line
  ∨ (counted_id line = None
     ∧ ∃ p0 p1 data, tokens line = p0 :: p1 :: data
                     ∧ oversized (decode (canonical_id p0) data)).
Proof.
  unfold counted_id, frame_id.
  destruct (tokens line) as [| p0 [| p1 data]]; [by left | by left |].
  destruct (val_str_cases (decode (canonical_id p0) data)) as [(vs & -> & _) | [-> Hover]];
    [by left |].
  right. split; [done |]. by exists p0, p1, data.
Qed.

(** The state after a line of at least two tokens whose decoded value
    renders. *)
Lemma parse_frame_tokens now ts line st p0 p1 data vs :
  tokens line = p0 :: p1 :: data →
  val_str (decode (canonical_id p0) data) = Ok vs →
  let cid := canonical_id p0 in
  let prev := default {| c := 0; t := now |} (stats st !! cid) in
  let r := {| row_id := cid; row_name := get_name cid; row_dlc := p1;
              row_data := join " " data; row_value := vs;
              row_freq := freq_label (fsub now (t prev));
              row_count := c prev + 1; row_time := ts |} in
  stats (parse_frame now ts line st) = <[cid := {| c := c prev + 1; t := now |}]> (stats st)
  ∧ tree_values cid (tree (parse_frame now ts line st)) = Some r.
Proof.
  intros Htok Hvs cid prev r. unfold parse_frame. rewrite Htok, Hvs. fold cid prev.
  cbn [stats tree]. rewrite lookup_insert_eq. cbn [from_option]. fold r.
  split; [done |].
  destruct (tree_exists cid (tree st)) eqn:Hex;
    [by apply tree_values_item | by apply tree_values_insert].
Qed.

(** A line that is not counted leaves the state as it was. *)
Lemma parse_frame_dropped now ts line st :
  counted_id line = None → parse_frame now ts line st = st.
Proof.
  unfold counted_id, parse_frame.
  destruct (tokens line) as [| p0 [| p1 data]]; [done | done |].
  by destruct (val_str (decode (canonical_id p0) data)).
Qed.


(** ** Malformed lines (C5) *)

Lemma mapM_int16_raise data tok :
  tok ∈ data → non_hex tok → ∃ e, mapM int16 data = Raise e.
Proof.
  intros Hin [e He]. induction data as [| x data IH]; [by apply elem_of_nil in Hin |].
  apply elem_of_cons in Hin as [<- | Hin]; simpl.
  - rewrite He. by exists e.
  - destruct (int16 x) as [v | e']; [| by exists e'].
    destruct (IH Hin) as [e'' ->]. by exists e''.
Qed.

(** A frame whose id or data does not convert is answered with an error
    text. *)
Lemma decode_non_hex cid data :
  non_hex cid ∨ (∃ tok, tok ∈ data ∧ non_hex tok) →
  ∃ e, decode cid data = Text ("Err: " ++ str_exn e).
Proof.
  intros Hbad. unfold decode, decode_try.
  destruct (int16 cid) as [can_id | e] eqn:Hid; [| by exists e].
  destruct Hbad as [[e He] | (tok & Hin & Htok)]; [congruence |].
  destruct (mapM_int16_raise data tok Hin Htok) as [e ->]. by exists e.
Qed.




(** ** Statistics (C9) *)

Lemma frame_id_tokens line cid :
  frame_id line = Some cid →
  ∃ p0 p1 data, tokens line = p0 :: p1 :: data ∧ cid = canonical_id p0.
Proof.
  unfold frame_id. destruct (tokens line) as [| p0 [| p1 data]]; try discriminate.
  intros [= <-]. by exists p0, p1, data.
Qed.

(** One sighting of [cid]: the entry of [cid] and its row after the line. *)
Lemma sighting_step now ts line st cid :
  counted_id line = Some cid →
  let prev := default {| c := 0; t := now |} (stats st !! cid) in
  ∃ r, tree_values cid (tree (parse_frame now ts line st)) = Some r
     ∧ stats (parse_frame now ts line st) !! cid = Some {| c := c prev + 1; t := now |}
     ∧ row_count r = c prev + 1
     ∧ row_freq r = freq_label (fsub now (t prev)).
Proof.
  intros Hid prev.
  apply counted_id_tokens in Hid as (p0 & p1 & data & vs & Htok & -> & Hvs).
  destruct (parse_frame_tokens now ts line st p0 p1 data vs Htok Hvs) as [Hstats Htree].
  eexists. split; [exact Htree |].
  split; [rewrite Hstats; apply lookup_insert_eq |]. done.
Qed.


(** On a payload of bytes the [int] signals of a mapping are 16-bit
    values or bytes. *)
Lemma routine_ints_small can_id f (data : list Z) d :
  (can_id, f) ∈ decoder_table → Forall is_byte data → f data = Ok d →
  ∀ k z, (k, VInt z) ∈ d → Z.abs z < 2 ^ 64.
Proof.
  intros Hin Hb Hd.
  assert (Hsmall : Forall (λ kv, match snd kv with
                                 | VInt z => Z.abs z < 2 ^ 64
                                 | _ => True
                                 end) d).
  { unfold decoder_table in Hin.
    list_cases Hin; injection Hin as -> ->;
      match type of Hd with ?r _ = _ => unfold r in Hd end.
    - destruct (length data <? 3)%nat; [injection Hd as <-; by repeat constructor |].
      destruct (index data 0) as [sel | e]; [| discriminate].
      destruct (parse_le_int16_range data 1 Hb ltac:(lia)) as (raw & Hraw & Hr).
      rewrite Hraw in Hd. cbn [mbind result_bind] in Hd.
      repeat match type of Hd with
             | (if ?c then _ else _) = Ok _ => destruct c
             end;
        first [ injection Hd as <-; constructor; [cbn [snd]; lia | constructor]
              | invert_ok (@bind_Ok) Hd; by repeat constructor ].
    - invert_ok (@bind_Ok) Hd. by repeat constructor.
    - destruct (parse_le_int16_range data 1 Hb ltac:(lia)) as (raw & Hraw & Hr).
      rewrite Hraw in Hd. injection Hd as <-. constructor; [cbn [snd]; lia | constructor].
    - invert_ok (@bind_Ok) Hd. by repeat constructor.
    - destruct (length data <? 7)%nat; [injection Hd as <-; by repeat constructor |].
      destruct data as [| b0 [| b1 [| t1 [| t2 [| t3 rest]]]]]; try discriminate.
      injection Hd as <-.
      repeat match goal with
             | H : Forall _ (_ :: _) |- _ => apply Forall_cons in H as [? H]
             end.
      unfold is_byte in *. repeat (constructor; [cbn [snd]; lia |]). constructor.
    - invert_ok (@bind_Ok) Hd. by repeat constructor.
    - invert_ok (@bind_Ok) Hd. by repeat constructor.
    - destruct data as [| b rest]; [discriminate |]. injection Hd as <-.
      apply Forall_cons in Hb as [Hb0 _]. unfold is_byte in Hb0.
      constructor; [cbn [snd]; lia | constructor].
    - invert_ok (@bind_Ok) Hd. by repeat constructor.
    - invert_ok (@bind_Ok) Hd. by repeat constructor.
    - invert_ok (@bind_Ok) Hd. by repeat constructor.
    - invert_ok (@bind_Ok) Hd. by repeat constructor.
    - invert_ok (@bind_Ok) Hd. by repeat constructor.
    - invert_ok (@bind_Ok) Hd. by repeat constructor.
    - destruct data as [| b rest]; [discriminate |]. injection Hd as <-.
      by repeat constructor.
    - destruct data as [| b rest]; [discriminate |]. injection Hd as <-.
      by repeat constructor. }
  intros k z Hkz. rewrite Forall_forall in Hsmall. exact (Hsmall (k, VInt z) Hkz).
Qed.

(** A frame whose data tokens read as bytes is decoded to a value that
    renders. *)
Lemma decode_bytes_rendered cid data bs :
  mapM int16 data = Ok bs → Forall is_byte bs → ¬ oversized (decode cid data).
Proof.
  intros Hdata Hb (d & k & z & Hdec & Hin & Hz).
  unfold decode, decode_try in Hdec.
  destruct (int16 cid) as [can_id | e]; [| discriminate].
  cbn [mbind result_bind] in Hdec. rewrite Hdata in Hdec. cbn [mbind result_bind] in Hdec.
  destruct (DECODER_MAP !! can_id) as [f |] eqn:Hf; [| discriminate].
  destruct (f bs) as [d' | e] eqn:Hd; [| discriminate]. injection Hdec as ->.
  apply DECODER_MAP_lookup in Hf.
  pose proof (routine_ints_small can_id f bs d Hf Hb Hd k z Hin) as Hsmall.
  pose proof str_limit_large. lia.
Qed.




(* ================================================================== *)
(** * Further properties of the decoder *)
(* ================================================================== *)

(** ** The 16-bit helpers on any list *)

(** X1. The two 16-bit helpers at any [int] offset, on any list of
    integers. A list that ends before [offset + 2] gives 0. Otherwise, from
    offset [-len] on, the helpers read the elements at [offset] and
    [offset + 1], a negative index counting from the end, and return the
    two's complement adjustment of the two put together, least significant
    first for [parse_le_int16] and most significant first for
    [parse_be_int16]; and below [-len] the length test passes and the first
    index raises [IndexError]. So the helpers never raise at an offset from
    [-1] on, which covers every offset the module uses. *)
Theorem int16_helpers_total (data : list Z) (offset : Z) :
  (Z.of_nat (length data) < offset + 2 →
   parse_le_int16 data offset = Ok 0 ∧ parse_be_int16 data offset = Ok 0)
  ∧ (offset + 2 <= Z.of_nat (length data) → - Z.of_nat (length data) <= offset →
     ∃ a b, data !! Z.to_nat (offset mod Z.of_nat (length data)) = Some a
          ∧ data !! Z.to_nat ((offset + 1) mod Z.of_nat (length data)) = Some b
          ∧ parse_le_int16 data offset = Ok (signed 16 (Z.lor a (Z.shiftl b 8)))
          ∧ parse_be_int16 data offset = Ok (signed 16 (Z.lor (Z.shiftl a 8) b)))
  ∧ (offset + 2 <= Z.of_nat (length data) → offset < - Z.of_nat (length data) →
     parse_le_int16 data offset = Raise (IndexError "list index out of range")
     ∧ parse_be_int16 data offset = Raise (IndexError "list index out of range"))
  ∧ (-1 <= offset →
     (∃ v, parse_le_int16 data offset = Ok v) ∧ (∃ v, parse_be_int16 data offset = Ok v)).
Proof.
  split; [intros Hlen; split;
          [by apply parse_le_int16_short | by apply parse_be_int16_short] |].
  split; [apply int16_field |]. split; [apply int16_field_below |].
  intros Hoff.
  destruct (Z.lt_ge_cases (Z.of_nat (length data)) (offset + 2)) as [Hshort | Hlong].
  - rewrite parse_le_int16_short, parse_be_int16_short by done. split; by eexists.
  - destruct (int16_field data offset) as (a & b & _ & _ & -> & ->); [lia | lia |].
    split; by eexists.
Qed.

(** X2. On a list of bytes the two helpers return a 16-bit signed value at
    every offset at which they return, that is from offset [-1] on and,
    below that, down to [-len]; and reading a field least significant byte
    first is reading the field with its two bytes exchanged most
    significant first. *)
Theorem int16_helpers_bytes (data : list Z) (offset : Z) :
  Forall is_byte data →
  -1 <= offset ∨ - Z.of_nat (length data) <= offset →
  (∃ v, parse_le_int16 data offset = Ok v ∧ -32768 <= v <= 32767)
  ∧ (∃ v, parse_be_int16 data offset = Ok v ∧ -32768 <= v <= 32767)
  ∧ (∀ b0 b1, is_byte b0 → is_byte b1 →
       parse_le_int16 [b0; b1] 0 = parse_be_int16 [b1; b0] 0).
Proof.
  intros Hb Hoff. destruct (int16_range data offset Hb Hoff) as [Hle Hbe].
  split; [exact Hle |]. split; [exact Hbe |].
  intros b0 b1 H0 H1.
  by rewrite parse_le_int16_bytes, parse_be_int16_bytes.
Qed.

Lemma int16_helpers_bytes_witness :
  (∃ v, parse_le_int16 [0x10; 0xFF; 0xFE] (-2) = Ok v ∧ -32768 <= v <= 32767)
  ∧ (∃ v, parse_be_int16 [0x10; 0xFF; 0xFE] (-2) = Ok v ∧ -32768 <= v <= 32767).
Proof.
  destruct (int16_helpers_bytes [0x10; 0xFF; 0xFE] (-2)) as (Hle & Hbe & _).
  - repeat constructor; unfold is_byte; lia.
  - right. simpl. lia.
  - by split.
Defined.

(** ** The 40-bit helper on any list *)

Lemma parse_ivt_int40_short (data : list Z) :
  (length data < 6)%nat → parse_ivt_int40 data = Ok 0.
Proof.
  intros Hlen. unfold parse_ivt_int40.
  by apply Nat.ltb_lt in Hlen as ->.
Qed.

Lemma parse_ivt_int40_never_raises (data : list Z) :
  ∃ v, parse_ivt_int40 data = Ok v.
Proof.
  destruct data as [| b0 [| b1 [| b2 [| b3 [| b4 [| b5 rest]]]]]];
    try (exists 0; reflexivity).
  eexists. reflexivity.
Qed.

(** X3. [parse_ivt_int40] never raises, on any list of integers; a list of
    fewer than six elements gives 0; the result does not depend on element
    0 nor on what follows element 5; and on bytes it is a 40-bit signed
    value. *)
Theorem ivt_int40_total (data : list Z) :
  (∃ v, parse_ivt_int40 data = Ok v
        ∧ ((length data < 6)%nat → v = 0)
        ∧ (Forall is_byte data → - 2 ^ 39 <= v < 2 ^ 39))
  ∧ (∀ b0 b0' b1 b2 b3 b4 b5 rest rest',
       parse_ivt_int40 (b0 :: b1 :: b2 :: b3 :: b4 :: b5 :: rest)
       = parse_ivt_int40 (b0' :: b1 :: b2 :: b3 :: b4 :: b5 :: rest')).
Proof.
  split; [| reflexivity].
  destruct (parse_ivt_int40_never_raises data) as [v Hv]. exists v.
  split; [done |]. split.
  - intros Hlen. rewrite parse_ivt_int40_short in Hv by done. by injection Hv.
  - intros Hb. destruct (parse_ivt_int40_range data Hb) as (v' & Hv' & Hr).
    congruence.
Qed.

(** ** Multi-signal frames *)

(** X4. On any payload of bytes [decode_ui_voltages] returns its three
    signals and never a short message: each voltage is the big-endian
    16-bit field at offset 2, 4 or 6 times 0.01, a field that the payload
    does not hold in full reading as 0. On eight bytes or more the three
    fields are bytes 2-3, 4-5 and 6-7. *)
Theorem ui_voltages_fields (data : list Z) :
  Forall is_byte data →
  (∃ r1 r2 r3,
      parse_be_int16 data 2 = Ok r1 ∧ parse_be_int16 data 4 = Ok r2
      ∧ parse_be_int16 data 6 = Ok r3
      ∧ ((length data < 4)%nat → r1 = 0) ∧ ((length data < 6)%nat → r2 = 0)
      ∧ ((length data < 8)%nat → r3 = 0)
      ∧ decode_ui_voltages data
        = Ok [("UI V1", VFloat (fmul (float_lit r1) f_0_01));
              ("UI V2", VFloat (fmul (float_lit r2) f_0_01));
              ("UI V3", VFloat (fmul (float_lit r3) f_0_01))])
  ∧ (∀ b0 b1 b2 b3 b4 b5 b6 b7 rest,
       data = b0 :: b1 :: b2 :: b3 :: b4 :: b5 :: b6 :: b7 :: rest →
       decode_ui_voltages data
       = Ok [("UI V1", VFloat (fmul (float_lit (signed 16 (b2 * 2 ^ 8 + b3))) f_0_01));
             ("UI V2", VFloat (fmul (float_lit (signed 16 (b4 * 2 ^ 8 + b5))) f_0_01));
             ("UI V3", VFloat (fmul (float_lit (signed 16 (b6 * 2 ^ 8 + b7))) f_0_01))]).
Proof.
  intros Hb.
  destruct (parse_be_int16_range data 2 Hb ltac:(lia)) as (r1 & H1 & Hr1).
  destruct (parse_be_int16_range data 4 Hb ltac:(lia)) as (r2 & H2 & Hr2).
  destruct (parse_be_int16_range data 6 Hb ltac:(lia)) as (r3 & H3 & Hr3).
  assert (Hdec : decode_ui_voltages data
                 = Ok [("UI V1", VFloat (fmul (float_lit r1) f_0_01));
                       ("UI V2", VFloat (fmul (float_lit r2) f_0_01));
                       ("UI V3", VFloat (fmul (float_lit r3) f_0_01))]).
  { unfold decode_ui_voltages. rewrite H1, H2, H3. cbn [mbind result_bind].
    rewrite !int_mul_float_small by lia. reflexivity. }
  split.
  - exists r1, r2, r3. repeat split; try done.
    + intros Hlen. rewrite parse_be_int16_short in H1 by lia. by injection H1.
    + intros Hlen. rewrite parse_be_int16_short in H2 by lia. by injection H2.
    + intros Hlen. rewrite parse_be_int16_short in H3 by lia. by injection H3.
  - intros b0 b1 b2 b3 b4 b5 b6 b7 rest ->. rewrite Hdec.
    repeat match goal with
           | H : Forall _ (_ :: _) |- _ => apply Forall_cons in H as [? H]
           end.
    rewrite (parse_be_int16_at _ 2 b2 b3) in H1 by done.
    rewrite (parse_be_int16_at _ 4 b4 b5) in H2 by done.
    rewrite (parse_be_int16_at _ 6 b6 b7) in H3 by done.
    injection H1 as <-. injection H2 as <-. injection H3 as <-. reflexivity.
Qed.

Lemma ui_voltages_fields_witness :
  decode_ui_voltages [0; 0; 0x01; 0x00; 0xFF; 0xFF; 0x80; 0x00]
  = Ok [("UI V1", VFloat (fmul (float_lit (signed 16 (0x01 * 2 ^ 8 + 0x00))) f_0_01));
        ("UI V2", VFloat (fmul (float_lit (signed 16 (0xFF * 2 ^ 8 + 0xFF))) f_0_01));
        ("UI V3", VFloat (fmul (float_lit (signed 16 (0x80 * 2 ^ 8 + 0x00))) f_0_01))].
Proof.
  destruct (ui_voltages_fields [0; 0; 0x01; 0x00; 0xFF; 0xFF; 0x80; 0x00]) as [_ H].
  - repeat constructor; unfold is_byte; lia.
  - by apply H with (b0 := 0) (b1 := 0) (rest := []).
Defined.

(** X5. [decode_ui_temperatures] never raises: on seven elements or more it
    returns elements 2, 3 and 4 as they are, and on fewer it returns the
    short message, also for a payload of five or six elements, which holds
    all three. *)
Theorem ui_temperatures_fields (data : list Z) :
  ((length data < 7)%nat → decode_ui_temperatures data = Ok [("Error", VStr "Short")])
  ∧ ((7 <= length data)%nat →
     ∃ t1 t2 t3, data !! 2%nat = Some t1 ∧ data !! 3%nat = Some t2 ∧ data !! 4%nat = Some t3
       ∧ decode_ui_temperatures data
         = Ok [("UI T1", VInt t1); ("UI T2", VInt t2); ("UI T3", VInt t3)])
  ∧ (∀ b0 b1 t1 t2 t3 b5,
       decode_ui_temperatures [b0; b1; t1; t2; t3] = Ok [("Error", VStr "Short")]
       ∧ decode_ui_temperatures [b0; b1; t1; t2; t3; b5] = Ok [("Error", VStr "Short")]).
Proof.
  split; [| split; [| by split]].
  - intros Hlen. unfold decode_ui_temperatures.
    by apply Nat.ltb_lt in Hlen as ->.
  - intros Hlen. unfold decode_ui_temperatures.
    destruct data as [| b0 [| b1 [| t1 [| t2 [| t3 [| b5 [| b6 rest]]]]]]];
      simpl in Hlen; try lia.
    by exists t1, t2, t3.
Qed.

(** ** Status frames *)

Lemma string_length_app (s1 s2 : string) :
  String.length (s1 ++ s2) = (String.length s1 + String.length s2)%nat.
Proof. induction s1 as [| c s1 IH]; simpl; [done | by rewrite IH]. Qed.

Lemma bytes_hex_length (data : list Z) :
  String.length (String.concat "" (hex2 <$> data)) = (2 * length data)%nat.
Proof.
  induction data as [| b data IH]; [done |].
  destruct data as [| b' data]; [done |].
  change (String.concat "" (hex2 <$> b :: b' :: data))
    with (hex2 b ++ "" ++ String.concat "" (hex2 <$> b' :: data)).
  rewrite !string_length_app, IH. simpl. lia.
Qed.

(** X6. The two ACU info routines return, on bytes, two hexadecimal
    characters for each byte of the payload, none for the empty payload,
    and raise [ValueError] as soon as one element is not from 0 to 255;
    they never index the payload. *)
Theorem acu_info_text (data : list Z) :
  (Forall is_byte data →
   ∃ h, decode_acu_info_1 data = Ok [("ACU Info 1", VStr h)]
        ∧ decode_acu_info_2 data = Ok [("ACU Info 2", VStr h)]
        ∧ String.length h = (2 * length data)%nat)
  ∧ (¬ Forall is_byte data →
     decode_acu_info_1 data = Raise (ValueError "bytes must be in range(0, 256)")
     ∧ decode_acu_info_2 data = Raise (ValueError "bytes must be in range(0, 256)")).
Proof.
  split.
  - intros Hb. exists (String.concat "" (hex2 <$> data)).
    unfold decode_acu_info_1, decode_acu_info_2.
    rewrite bytes_hex_bytes by done. repeat split. apply bytes_hex_length.
  - intros Hnb. unfold decode_acu_info_1, decode_acu_info_2, bytes_hex.
    destruct (forallb (λ b, in_range 0 255 b) data) eqn:Hall; [| done].
    exfalso. apply Hnb. apply Forall_forall. intros b Hin.
    rewrite forallb_forall in Hall. apply list_elem_of_In in Hin.
    specialize (Hall b Hin). unfold in_range in Hall.
    apply andb_true_iff in Hall. unfold is_byte. lia.
Qed.

(** ** Every registered routine *)

Lemma mux_bytes_ok (data : list Z) :
  Forall is_byte data → ∃ d, decode_inverter_multiplexed data = Ok d.
Proof.
  intros Hb. unfold decode_inverter_multiplexed.
  destruct (length data <? 3)%nat eqn:Hlen; [by eexists |].
  destruct data as [| sel data]; [done |].
  change (index (sel :: data) 0) with (Ok sel). cbn [mbind result_bind].
  destruct (parse_le_int16_range (sel :: data) 1 Hb ltac:(lia)) as (raw & -> & Hraw).
  cbn [mbind result_bind].
  repeat (match goal with
          | |- context [if ?c then _ else _] => destruct c
          end; [rewrite int_mul_float_small by lia; by eexists |]).
  by eexists.
Qed.

Lemma le16_scaled_ok (data : list Z) offset scale :
  Forall is_byte data → -1 <= offset →
  ∃ raw x, parse_le_int16 data offset = Ok raw ∧ int_mul_float raw scale = Ok x.
Proof.
  intros Hb Hoff. destruct (parse_le_int16_range data offset Hb Hoff) as (raw & Hraw & Hr).
  exists raw, (fmul (float_lit raw) scale). split; [done |].
  apply int_mul_float_small. lia.
Qed.

Lemma ui_voltages_ok (data : list Z) :
  Forall is_byte data → ∃ d, decode_ui_voltages data = Ok d.
Proof.
  intros Hb. unfold decode_ui_voltages.
  destruct (parse_be_int16_range data 2 Hb ltac:(lia)) as (r1 & -> & Hr1).
  destruct (parse_be_int16_range data 4 Hb ltac:(lia)) as (r2 & -> & Hr2).
  destruct (parse_be_int16_range data 6 Hb ltac:(lia)) as (r3 & -> & Hr3).
  cbn [mbind result_bind]. rewrite !int_mul_float_small by lia. by eexists.
Qed.

Lemma ui_temperatures_ok (data : list Z) : ∃ d, decode_ui_temperatures data = Ok d.
Proof.
  unfold decode_ui_temperatures.
  destruct (length data <? 7)%nat eqn:Hlen; [by eexists |].
  destruct data as [| b0 [| b1 [| t1 [| t2 [| t3 rest]]]]]; try done.
  by eexists.
Qed.


(** On a payload of bytes only the three routines that index element 0
    without a test can raise, and only on the empty payload. *)
Lemma routine_bytes_ok can_id f (data : list Z) :
  (can_id, f) ∈ decoder_table → Forall is_byte data →
  data ≠ [] ∨ can_id ∉ [0x100; 0x175; 0x176] →
  ∃ d, f data = Ok d.
Proof.
  intros Hin Hb Hne. unfold decoder_table in Hin.
  list_cases Hin; injection Hin as -> ->.
  - by apply mux_bytes_ok.
  - unfold decode_inverter_igbt_temp.
    destruct (le16_scaled_ok data 1 f_1_0 Hb ltac:(lia)) as (raw & x & -> & Hx).
    cbn [mbind result_bind]. rewrite Hx. by eexists.
  - unfold decode_torque_command.
    destruct (parse_le_int16_range data 1 Hb ltac:(lia)) as (raw & -> & _). by eexists.
  - by apply ui_voltages_ok.
  - apply ui_temperatures_ok.
  - unfold decode_acu_info_1. rewrite bytes_hex_bytes by done. by eexists.
  - unfold decode_acu_info_2. rewrite bytes_hex_bytes by done. by eexists.
  - destruct Hne as [Hne | Hid]; [| exfalso; apply Hid; set_solver].
    destruct data as [| b rest]; [done |]. by eexists.
  - unfold decode_ivt_current. ivt_ok ivt_scaled_ok data Hb.
  - unfold decode_ivt_voltage_vehicle. ivt_ok ivt_scaled_ok data Hb.
  - unfold decode_ivt_voltage_pack. ivt_ok ivt_scaled_ok data Hb.
  - unfold decode_ivt_wattage. ivt_ok ivt_scaled_ok data Hb.
  - unfold decode_ivt_current_counter. ivt_ok ivt_scaled_ok data Hb.
  - unfold decode_ivt_wattage_counter. ivt_ok ivt_scaled_ok data Hb.
  - destruct Hne as [Hne | Hid]; [| exfalso; apply Hid; set_solver].
    destruct data as [| b rest]; [done |]. by eexists.
  - destruct Hne as [Hne | Hid]; [| exfalso; apply Hid; set_solver].
    destruct data as [| b rest]; [done |]. by eexists.
Qed.

(** X7. Every routine of [DECODER_MAP] returns a mapping, without raising,
    on every non-empty payload of bytes, whatever its length. *)
Theorem registered_routine_returns (can_id : Z) (f : list Z → result dict)
    (data : list Z) :
  DECODER_MAP !! can_id = Some f → Forall is_byte data → data ≠ [] →
  ∃ d, f data = Ok d.
Proof.
  intros Hf Hb Hne. apply DECODER_MAP_lookup in Hf.
  apply (routine_bytes_ok can_id f data Hf Hb). by left.
Qed.

Lemma registered_routine_returns_witness : ∃ d, decode_vcu_reply [0] = Ok d.
Proof.
  apply (registered_routine_returns 0x176 decode_vcu_reply [0]).
  - apply DECODER_MAP_entry. find_entry.
  - repeat constructor; unfold is_byte; lia.
  - discriminate.
Defined.

(** X8. On the empty payload the routines of the ids 0x100, 0x175 and 0x176
    raise [IndexError], and they are the only ones: the thirteen others
    return a mapping. *)
Theorem empty_payload (can_id : Z) (f : list Z → result dict) :
  DECODER_MAP !! can_id = Some f →
  (can_id ∈ [0x100; 0x175; 0x176] → f [] = Raise (IndexError "list index out of range"))
  ∧ (can_id ∉ [0x100; 0x175; 0x176] → ∃ d, f [] = Ok d).
Proof.
  intros Hf. apply DECODER_MAP_lookup in Hf. split.
  - intros Hid. unfold decoder_table in Hf.
    list_cases Hid; subst can_id;
      (list_cases Hf; first [discriminate Hf | injection Hf as ->]); reflexivity.
  - intros Hid. apply (routine_bytes_ok can_id f [] Hf); [constructor | by right].
Qed.

Lemma empty_payload_witness :
  decode_acu_precharge [] = Raise (IndexError "list index out of range").
Proof.
  destruct (empty_payload 0x100 decode_acu_precharge) as [Hraise _].
  - apply DECODER_MAP_entry. find_entry.
  - apply Hraise. set_solver.
Defined.

(** ** The shape of a signal mapping *)


Lemma routine_mapping_shape can_id f (data : list Z) d :
  (can_id, f) ∈ decoder_table → f data = Ok d →
  (length d = 1%nat ∨ length d = 3%nat) ∧ NoDup (d.*1).
Proof.
  intros Hin Hd. unfold decoder_table in Hin.
  list_cases Hin; injection Hin as -> ->;
    match type of Hd with ?r _ = _ => unfold r in Hd end;
    invert_ok (@bind_Ok) Hd;
    (split; [simpl; lia |]);
    first [ apply NoDup_singleton
          | apply (bool_decide_unpack _); by vm_compute ].
Qed.

(** X9. Whatever the payload, a mapping returned by a routine of
    [DECODER_MAP] has one signal or three, under names that are all
    different: the order-keeping list that models the [dict] holds no key
    twice. *)
Theorem mapping_shape (can_id : Z) (f : list Z → result dict) (data : list Z) (d : dict) :
  DECODER_MAP !! can_id = Some f → f data = Ok d →
  (length d = 1%nat ∨ length d = 3%nat) ∧ NoDup (d.*1).
Proof.
  intros Hf Hd. apply DECODER_MAP_lookup in Hf.
  by apply (routine_mapping_shape can_id f data).
Qed.

Lemma mapping_shape_witness :
  (length [("Torque Cmd", VInt 0)] = 1%nat ∨ length [("Torque Cmd", VInt 0)] = 3%nat)
  ∧ NoDup ([("Torque Cmd", VInt 0)].*1).
Proof.
  apply (mapping_shape 0x201 decode_torque_command []).
  - apply DECODER_MAP_entry. find_entry.
  - reflexivity.
Defined.

(** ** Display names *)

Lemma name_table_values can_id name :
  CAN_ID_NAMES !! can_id = Some name → name ≠ "Unknown" ∧ name ≠ "Unknown ID".
Proof.
  intros Hname. unfold CAN_ID_NAMES in Hname.
  apply elem_of_list_to_map_2 in Hname.
  list_cases Hname; injection Hname as -> ->; by split.
Qed.

(** X10. [get_name] tells a malformed id from an unregistered one: it
    answers [Unknown] exactly when the id string is not a hexadecimal
    number, and for an id string that reads as [can_id] it answers
    [Unknown ID] exactly when [CAN_ID_NAMES] has no entry for [can_id], and
    the name of the entry otherwise. *)
Theorem get_name_cases (can_id_str : string) :
  (get_name can_id_str = "Unknown" ↔ non_hex can_id_str)
  ∧ (∀ can_id, int16 can_id_str = Ok can_id →
       (get_name can_id_str = "Unknown ID" ↔ CAN_ID_NAMES !! can_id = None)
       ∧ (∀ name, CAN_ID_NAMES !! can_id = Some name → get_name can_id_str = name)).
Proof.
  unfold get_name, non_hex. split.
  - destruct (int16 can_id_str) as [can_id | e].
    + split; [| by intros [e He]].
      destruct (CAN_ID_NAMES !! can_id) as [name |] eqn:Hname; simpl.
      * intros ->. by apply name_table_values in Hname as [? _].
      * discriminate.
    + split; [by exists e | done].
  - intros can_id ->. split.
    + destruct (CAN_ID_NAMES !! can_id) as [name |] eqn:Hname; simpl.
      * split; [| discriminate]. intros ->.
        by apply name_table_values in Hname as [_ ?].
      * done.
    + by intros name ->.
Qed.

(** ** [decode] on a well-formed frame *)

(** X11. For an id string that reads as a registered id and a non-empty
    payload whose tokens read as bytes, [decode] returns a signal mapping,
    with one signal or three under different names; this holds for all
    sixteen registered ids and every payload length. *)
Theorem decode_registered (can_id_str : string) (can_id : Z)
    (data : list string) (data_ints : list Z) :
  int16 can_id_str = Ok can_id →
  can_id ∈ dom DECODER_MAP →
  mapM int16 data = Ok data_ints →
  Forall is_byte data_ints → data_ints ≠ [] →
  ∃ d, decode can_id_str data = Signals d
       ∧ (length d = 1%nat ∨ length d = 3%nat) ∧ NoDup (d.*1).
Proof.
  intros Hid Hreg Hdata Hb Hne. apply elem_of_dom in Hreg as [f Hf].
  unfold decode, decode_try. rewrite Hid; cbn [mbind result_bind].
  rewrite Hdata; cbn [mbind result_bind]. rewrite Hf.
  apply DECODER_MAP_lookup in Hf.
  destruct (routine_bytes_ok can_id f data_ints Hf Hb) as [d Hd]; [by left |].
  rewrite Hd. exists d. split; [done |].
  by apply (routine_mapping_shape can_id f data_ints).
Qed.

Lemma decode_registered_witness :
  ∃ d, decode "701" ["0"; "0"; "1E"; "1F"; "20"; "0"; "0"] = Signals d
       ∧ (length d = 1%nat ∨ length d = 3%nat) ∧ NoDup (d.*1).
Proof.
  apply (decode_registered "701" 0x701 _ [0; 0; 0x1E; 0x1F; 0x20; 0; 0]).
  - by vm_compute.
  - apply elem_of_dom. eexists. apply DECODER_MAP_entry. find_entry.
  - by vm_compute.
  - repeat constructor; unfold is_byte; lia.
  - discriminate.
Defined.

(* ================================================================== *)
(** * Further properties of the pipeline *)
(* ================================================================== *)

(** ** The dashboard items *)

Lemma tree_item_ids iid r tr : (tree_item iid r tr).*1 = tr.*1.
Proof.
  unfold tree_item. rewrite <- list_fmap_compose.
  apply list_fmap_ext. intros i [k v] _. simpl.
  destruct (String.eqb k iid) eqn:Hk; [| done].
  apply String.eqb_eq in Hk. by subst.
Qed.

Lemma tree_insert_ids iid r tr : (tree_insert iid r tr).*1 = (tr.*1 ++ [iid])%list.
Proof. unfold tree_insert. by rewrite fmap_app. Qed.

Lemma tree_exists_ids iid tr : tree_exists iid tr = true ↔ iid ∈ tr.*1.
Proof.
  unfold tree_exists. induction tr as [| [k v] tr IH]; simpl.
  - split; [discriminate | by intros ?%elem_of_nil].
  - rewrite elem_of_cons, orb_true_iff, IH, String.eqb_eq. naive_solver.
Qed.

Lemma tree_values_None iid tr : tree_values iid tr = None ↔ iid ∉ tr.*1.
Proof.
  unfold tree_values. induction tr as [| [k v] tr IH]; simpl.
  - split; [intros _ ?%elem_of_nil; done | done].
  - rewrite not_elem_of_cons. destruct (String.eqb k iid) eqn:Hk; simpl.
    + apply String.eqb_eq in Hk. subst. split; [discriminate | by intros [? _]].
    + apply String.eqb_neq in Hk. rewrite IH. naive_solver.
Qed.

Lemma tree_values_item_ne iid iid' r tr :
  iid' ≠ iid → tree_values iid' (tree_item iid r tr) = tree_values iid' tr.
Proof.
  intros Hne. unfold tree_values, tree_item.
  induction tr as [| [k v] tr IH]; simpl; [done |].
  destruct (String.eqb k iid) eqn:Hk; simpl.
  - apply String.eqb_eq in Hk. subst k.
    assert (String.eqb iid iid' = false) as -> by (apply String.eqb_neq; congruence).
    exact IH.
  - destruct (String.eqb k iid'); [done | exact IH].
Qed.

Lemma tree_values_insert_ne iid iid' r tr :
  iid' ≠ iid → tree_values iid' (tree_insert iid r tr) = tree_values iid' tr.
Proof.
  intros Hne. unfold tree_values, tree_insert.
  induction tr as [| [k v] tr IH]; simpl.
  - assert (String.eqb iid iid' = false) as -> by (apply String.eqb_neq; congruence).
    done.
  - destruct (String.eqb k iid'); [done | exact IH].
Qed.

(** The dashboard after a line of at least two tokens whose decoded value
    renders. *)
Lemma parse_frame_tree now ts line st p0 p1 data vs :
  tokens line = p0 :: p1 :: data →
  val_str (decode (canonical_id p0) data) = Ok vs →
  ∃ r, tree (parse_frame now ts line st)
       = (if tree_exists (canonical_id p0) (tree st)
          then tree_item (canonical_id p0) r (tree st)
          else tree_insert (canonical_id p0) r (tree st))
     ∧ txt_log (parse_frame now ts line st)
       = (txt_log st ++ [("[" ++ ts ++ "] " ++ canonical_id p0 ++ ": "
                            ++ vs ++ newline)%string])%list
     ∧ row_id r = canonical_id p0.
Proof.
  intros Htok Hvs. unfold parse_frame. rewrite Htok, Hvs. cbn [tree txt_log].
  eexists. split; [reflexivity |]. by split.
Qed.

(** ** One line leaves the other ids alone *)

Lemma parse_frame_uncounted_id now ts line st cid' :
  counted_id line ≠ Some cid' →
  stats (parse_frame now ts line st) !! cid' = stats st !! cid'
  ∧ tree_values cid' (tree (parse_frame now ts line st)) = tree_values cid' (tree st).
Proof.
  intros Hother.
  destruct (counted_id line) as [cid |] eqn:Hid;
    [| by rewrite parse_frame_dropped].
  apply counted_id_tokens in Hid as (p0 & p1 & data & vs & Htok & -> & Hvs).
  assert (cid' ≠ canonical_id p0) as Hne by congruence.
  destruct (parse_frame_tokens now ts line st p0 p1 data vs Htok Hvs) as [Hstats _].
  destruct (parse_frame_tree now ts line st p0 p1 data vs Htok Hvs) as (r & Htree & _).
  rewrite Hstats, Htree. split.
  - by rewrite lookup_insert_ne.
  - destruct (tree_exists (canonical_id p0) (tree st));
      [by apply tree_values_item_ne | by apply tree_values_insert_ne].
Qed.

Lemma parse_frame_other_id now ts line st cid' :
  frame_id line ≠ Some cid' →
  stats (parse_frame now ts line st) !! cid' = stats st !! cid'
  ∧ tree_values cid' (tree (parse_frame now ts line st)) = tree_values cid' (tree st).
Proof.
  intros Hother. apply parse_frame_uncounted_id.
  intros Hid. by apply counted_id_frame_id in Hid.
Qed.

(** X12. A line changes the statistics entry and the dashboard row of its
    own canonical id only: the entry and the row of every other id are
    what they were, also when the line is dropped. *)
Theorem other_ids_untouched (now : float) (ts line : string) (st : ui) (cid' : string) :
  frame_id line ≠ Some cid' →
  stats (parse_frame now ts line st) !! cid' = stats st !! cid'
  ∧ tree_values cid' (tree (parse_frame now ts line st)) = tree_values cid' (tree st).
Proof. apply parse_frame_other_id. Qed.

Lemma other_ids_untouched_witness :
  stats (parse_frame (float_lit 3) "t" "201 8 01 02 03" empty_ui) !! "0x181"
  = stats empty_ui !! "0x181"
  ∧ tree_values "0x181" (tree (parse_frame (float_lit 3) "t" "201 8 01 02 03" empty_ui))
    = tree_values "0x181" (tree empty_ui).
Proof.
  apply (other_ids_untouched (float_lit 3) "t" "201 8 01 02 03" empty_ui "0x181").
  by vm_compute.
Defined.

(** ** The statistics and the dashboard agree *)

Lemma consistent_empty : consistent empty_ui.
Proof. split; [constructor | done]. Qed.

Lemma parse_frame_consistent now ts line st :
  consistent st → consistent (parse_frame now ts line st).
Proof.
  intros [Hnodup Hrows].
  destruct (counted_id line) as [cid0' |] eqn:Hid;
    [| by rewrite parse_frame_dropped].
  apply counted_id_tokens in Hid as (p0 & p1 & data & vs & Htok & -> & Hvs).
  destruct (parse_frame_tokens now ts line st p0 p1 data vs Htok Hvs) as [Hstats Hval].
  destruct (parse_frame_tree now ts line st p0 p1 data vs Htok Hvs) as (r & Htree & _).
  set (cid0 := canonical_id p0) in *. split.
  - rewrite Htree. destruct (tree_exists cid0 (tree st)) eqn:Hex.
    + by rewrite tree_item_ids.
    + rewrite tree_insert_ids. apply NoDup_app. split; [done |].
      split; [| apply NoDup_singleton].
      intros x Hx Hx'. apply list_elem_of_singleton in Hx'. subst x.
      apply tree_exists_ids in Hx. congruence.
  - intros cid. destruct (decide (cid = cid0)) as [-> | Hne].
    + rewrite Hstats, lookup_insert_eq. cbn [c]. split.
      * specialize (Hrows cid0). destruct (stats st !! cid0) as [s |]; simpl; [| lia].
        destruct Hrows as [Hpos _]. lia.
      * eexists. split; [exact Hval |]. by split.
    + assert (frame_id line ≠ Some cid) as Hother
        by (unfold frame_id; rewrite Htok; fold cid0; congruence).
      destruct (parse_frame_other_id now ts line st cid Hother) as [-> ->].
      apply Hrows.
Qed.

Lemma handle_consistent now it g :
  consistent (core g) → consistent (core (handle now it g)).
Proof.
  intros Hc. destruct it as [ts raw | content]; cbn [handle core].
  - by apply parse_frame_consistent.
  - exact Hc.
Qed.

Lemma update_loop_consistent q g :
  consistent (core g) → consistent (core (update_loop q g)).
Proof.
  unfold update_loop. revert g.
  induction q as [| [now it] q IH]; intros g Hc; [done |].
  cbn [foldl]. apply IH. by apply handle_consistent.
Qed.

(** X13. The statistics and the dashboard stay in step. The empty window
    is consistent, and [parse_frame] on any line and [update_loop] on any
    queue keep it so: no item id occurs twice in the dashboard; an id with
    a statistics entry has a row, under that id, whose count column is the
    count of the entry, at least 1; and an id without an entry has no
    row. *)
Theorem stats_tree_consistent (q : list (float * item)) (g : gui) :
  consistent (core g) →
  consistent (core (update_loop q g))
  ∧ consistent empty_ui
  ∧ (∀ now ts line, consistent (parse_frame now ts line (core g))).
Proof.
  intros Hc. split; [by apply update_loop_consistent |].
  split; [apply consistent_empty |]. intros now ts line.
  by apply parse_frame_consistent.
Qed.

Lemma stats_tree_consistent_witness :
  consistent
    (core (update_loop [(float_lit 3, DATA "t" "201 8 01 02 03");
                        (float_lit 4, SYS "Sim Started");
                        (float_lit 5, DATA "u" "garbage")] empty_gui)).
Proof.
  destruct (stats_tree_consistent
              [(float_lit 3, DATA "t" "201 8 01 02 03");
               (float_lit 4, SYS "Sim Started");
               (float_lit 5, DATA "u" "garbage")] empty_gui) as [Hq _];
    [apply consistent_empty | exact Hq].
Defined.

(** ** What one line adds *)

Lemma frame_id_Some line p0 p1 data :
  tokens line = p0 :: p1 :: data → frame_id line = Some (canonical_id p0).
Proof. unfold frame_id. by intros ->. Qed.

Lemma frame_id_None line :
  (length (tokens line) < 2)%nat ↔ frame_id line = None.
Proof.
  unfold frame_id. destruct (tokens line) as [| p0 [| p1 data]]; simpl;
    split; first [done | lia | discriminate].
Qed.

(** X14. What one line does. A line is dropped exactly when it has fewer
    than two tokens or its decoded value holds an [int] signal of more than
    4300 digits, whose rendering raises inside the [try] block; a dropped
    line leaves the statistics, the dashboard and the log as they are. A
    line that is counted appends exactly one line to the log, after the
    lines already there, of the form [[ts] cid: value]; in the dashboard it
    adds one row at the end when its id has no row yet, and otherwise
    overwrites the row of its id in place, the ids keeping their order. *)
Theorem one_line_growth (now : float) (ts line : string) (st : ui) :
  (counted_id line = None
   ↔ frame_id line = None
     ∨ ∃ p0 p1 data, tokens line = p0 :: p1 :: data
                     ∧ oversized (decode (canonical_id p0) data))
  ∧ match counted_id line with
    | None => parse_frame now ts line st = st
    | Some cid =>
        frame_id line = Some cid
        ∧ (∃ v, txt_log (parse_frame now ts line st)
                = (txt_log st
                   ++ [("[" ++ ts ++ "] " ++ cid ++ ": " ++ v ++ newline)%string])%list)
        ∧ (tree (parse_frame now ts line st)).*1
          = (if bool_decide (cid ∈ (tree st).*1) then (tree st).*1
             else ((tree st).*1 ++ [cid])%list)
    end.
Proof.
  split.
  - split.
    + intros Hnone. destruct (counted_id_cases line) as [Heq | [_ Hover]].
      * left. by rewrite <- Heq.
      * by right.
    + intros [Hnone | (p0 & p1 & data & Htok & Hover)].
      * destruct (counted_id line) as [cid |] eqn:Hid; [| done].
        apply counted_id_frame_id in Hid. congruence.
      * unfold counted_id. rewrite Htok.
        destruct (val_str_cases (decode (canonical_id p0) data))
          as [(vs & _ & Hno) | [-> _]]; done.
  - destruct (counted_id line) as [cid |] eqn:Hid;
      [| by apply parse_frame_dropped].
    split; [by apply counted_id_frame_id |].
    apply counted_id_tokens in Hid as (p0 & p1 & data & vs & Htok & -> & Hvs).
    destruct (parse_frame_tree now ts line st p0 p1 data vs Htok Hvs)
      as (r & Htree & Hlog & _).
    split; [eexists; exact Hlog |]. rewrite Htree.
    destruct (tree_exists (canonical_id p0) (tree st)) eqn:Hex.
    + rewrite tree_item_ids. apply tree_exists_ids in Hex.
      by rewrite bool_decide_eq_true_2.
    + rewrite tree_insert_ids, bool_decide_eq_false_2; [done |].
      intros Hin. apply tree_exists_ids in Hin. congruence.
Qed.

(** ** Draining the queue *)

Lemma count_of_step now ts line st cid :
  count_of (parse_frame now ts line st) cid
  = count_of st cid + (if bool_decide (counted_id line = Some cid) then 1 else 0).
Proof.
  unfold count_of. case_bool_decide as Hid.
  - destruct (sighting_step now ts line st cid Hid) as (r & _ & -> & _). simpl.
    by destruct (stats st !! cid).
  - destruct (parse_frame_uncounted_id now ts line st cid Hid) as [-> _]. lia.
Qed.

Lemma count_of_handle now it g cid :
  count_of (core (handle now it g)) cid
  = count_of (core g) cid
    + match it with
      | DATA _ raw => if bool_decide (counted_id raw = Some cid) then 1 else 0
      | SYS _ => 0
      end.
Proof.
  destruct it as [ts raw | content]; cbn [handle core].
  - apply count_of_step.
  - unfold count_of. cbn [stats]. lia.
Qed.

Lemma update_loop_counts q g cid :
  count_of (core (update_loop q g)) cid
  = count_of (core g) cid + Z.of_nat (sightings cid q).
Proof.
  unfold update_loop, sightings. revert g.
  induction q as [| [now it] q IH]; intros g; [simpl; lia |].
  cbn [foldl]. rewrite IH, count_of_handle. cbn [List.filter fst snd].
  destruct it as [ts raw | content]; [| lia].
  case_bool_decide; cbn [length]; lia.
Qed.

Lemma update_loop_raw q g :
  length (txt_raw (update_loop q g)) = (length (txt_raw g) + data_items q)%nat.
Proof.
  unfold update_loop, data_items. revert g.
  induction q as [| [now it] q IH]; intros g; [simpl; lia |].
  cbn [foldl]. rewrite IH. cbn [List.filter snd].
  destruct it as [ts raw | content]; cbn [handle txt_raw length].
  - rewrite length_app. simpl. lia.
  - lia.
Qed.

Lemma sightings_lines cid q :
  sightings cid q
  = length (List.filter (λ raw, bool_decide (counted_id raw = Some cid)) (data_lines q)).
Proof.
  unfold sightings, data_lines. induction q as [| [now it] q IH]; [done |].
  destruct it as [ts raw | content];
    cbn [List.filter omap list_omap snd]; [| exact IH].
  case_bool_decide; cbn [length]; by rewrite IH.
Qed.

Lemma sightings_frames cid q :
  (sightings cid q <= frames cid q)%nat
  ∧ (Forall (λ raw, counted_id raw = frame_id raw) (data_lines q) →
     sightings cid q = frames cid q).
Proof.
  rewrite sightings_lines. unfold frames.
  induction (data_lines q) as [| raw l [IHle IHeq]]; [done |].
  cbn [List.filter]. split.
  - repeat case_bool_decide; cbn [length]; try lia.
    exfalso. by apply counted_id_frame_id in H.
  - intros [Hraw Hl]%Forall_cons. rewrite Hraw.
    case_bool_decide; cbn [length]; by rewrite IHeq.
Qed.

(** X15. After [update_loop] has drained a queue, the count of every id is
    its count before plus the number of queued lines that [parse_frame]
    counts as frames of that id, whatever else is in the queue: status
    messages and lines that are dropped neither stop the loop nor change a
    count. That number is at most the number of queued frames of the id,
    and equal to it when no queued line is dropped for the size of a
    decoded [int]. The raw-stream widget gets one line for each queued data
    item, dropped or not. *)
Theorem drain_counts (q : list (float * item)) (g : gui) (cid : string) :
  count_of (core (update_loop q g)) cid
  = count_of (core g) cid + Z.of_nat (sightings cid q)
  ∧ (sightings cid q <= frames cid q)%nat
  ∧ (Forall (λ raw, counted_id raw = frame_id raw) (data_lines q) →
     sightings cid q = frames cid q)
  ∧ length (txt_raw (update_loop q g)) = (length (txt_raw g) + data_items q)%nat.
Proof.
  split; [apply update_loop_counts |].
  split; [apply sightings_frames |]. split; [apply sightings_frames |].
  apply update_loop_raw.
Qed.

(** ** [clear] *)

Lemma parse_frame_reads_stats_tree now ts line st1 st2 :
  stats st1 = stats st2 → tree st1 = tree st2 →
  stats (parse_frame now ts line st1) = stats (parse_frame now ts line st2)
  ∧ tree (parse_frame now ts line st1) = tree (parse_frame now ts line st2).
Proof.
  intros Hs Ht. unfold parse_frame.
  destruct (tokens line) as [| p0 [| p1 data]]; try done.
  destruct (val_str (decode (canonical_id p0) data)) as [vs | e]; [| done].
  cbn [stats tree]. by rewrite Hs, Ht.
Qed.

Lemma update_loop_reads_stats_tree q g1 g2 :
  stats (core g1) = stats (core g2) → tree (core g1) = tree (core g2) →
  stats (core (update_loop q g1)) = stats (core (update_loop q g2))
  ∧ tree (core (update_loop q g1)) = tree (core (update_loop q g2)).
Proof.
  unfold update_loop. revert g1 g2.
  induction q as [| [now it] q IH]; intros g1 g2 Hs Ht; [done |].
  cbn [foldl]. apply IH; destruct it as [ts raw | content]; cbn [handle core stats tree];
    try done; by apply parse_frame_reads_stats_tree.
Qed.

(** X16. [clear] empties the two text widgets and nothing else: it does not
    reset the statistics. Clearing between two batches of the queue leaves
    the statistics and the dashboard after the second batch exactly as
    they are when the two batches are drained with no [clear] in
    between. *)
Theorem clear_keeps_statistics (q1 q2 : list (float * item)) (g : gui) :
  txt_raw (clear g) = [] ∧ txt_log (core (clear g)) = []
  ∧ stats (core (update_loop q2 (clear (update_loop q1 g))))
    = stats (core (update_loop (q1 ++ q2) g))
  ∧ tree (core (update_loop q2 (clear (update_loop q1 g))))
    = tree (core (update_loop (q1 ++ q2) g)).
Proof.
  split; [done |]. split; [done |].
  assert (update_loop (q1 ++ q2) g = update_loop q2 (update_loop q1 g)) as ->
    by (unfold update_loop; apply foldl_app).
  by apply update_loop_reads_stats_tree.
Qed.

(** ** The line parser on words *)

Lemma contains_app c s1 s2 :
  contains c (s1 ++ s2) = contains c s1 || contains c s2.
Proof.
  induction s1 as [| a s1 IH]; simpl; [done |].
  destruct (Ascii.eqb c a); [done | exact IH].
Qed.

Lemma all_chars_contains p c s :
  all_chars p s = true → contains c s = true → p c = true.
Proof.
  induction s as [| a s IH]; simpl; [discriminate |].
  intros [Ha Hs]%andb_true_iff.
  destruct (Ascii.eqb c a) eqn:Hc; [| by apply IH].
  apply Ascii.eqb_eq in Hc. by subst.
Qed.

Lemma prefix_contains old s c :
  String.prefix old s = true → contains c old = true → contains c s = true.
Proof.
  revert s. induction old as [| a old IH]; intros s; [discriminate 2 |].
  destruct s as [| b s]; [discriminate 1 |].
  cbn [String.prefix contains].
  destruct (ascii_dec a b) as [<- | _]; [| discriminate 1].
  intros Hp. destruct (Ascii.eqb c a); [done | by apply IH].
Qed.

(** Text without a character of the pattern is left as it is. *)
Lemma replace_absent old new s c :
  contains c old = true → contains c s = false → replace old new s = s.
Proof.
  intros Hold. unfold replace. induction s as [| a s IH]; [done |].
  intros Hs. cbn [replace_from].
  destruct (String.prefix old (String a s)) eqn:Hp.
  - apply (prefix_contains _ _ c) in Hp; [congruence | done].
  - f_equal. apply IH. simpl in Hs. by destruct (Ascii.eqb c a).
Qed.

Lemma string_app_cons a (s1 s2 : string) : String a s1 ++ s2 = String a (s1 ++ s2).
Proof. reflexivity. Qed.

Lemma string_app_assoc (s1 s2 s3 : string) : (s1 ++ s2) ++ s3 = s1 ++ (s2 ++ s3).
Proof.
  induction s1 as [| a s1 IH]; [done |].
  by rewrite !string_app_cons, IH.
Qed.

Lemma string_app_nil_r (s : string) : s ++ "" = s.
Proof.
  induction s as [| a s IH]; [done |].
  by rewrite string_app_cons, IH.
Qed.

(** A run of non-blank characters is read into the current word. *)
Lemma split_from_word cur w rest :
  all_chars (λ c, negb (isspace c)) w = true →
  split_from cur (w ++ rest) = split_from (cur ++ w) rest.
Proof.
  revert cur. induction w as [| a w IH]; intros cur.
  - intros _. by rewrite string_app_nil_r.
  - cbn [all_chars]. intros [Ha Hw]%andb_true_iff. apply negb_true_iff in Ha.
    rewrite string_app_cons. cbn [split_from]. rewrite Ha.
    rewrite IH by done. by rewrite string_app_assoc.
Qed.

Lemma plain_word w :
  plain w = true →
  w ≠ "" ∧ all_chars (λ c, negb (isspace c)) w = true
  ∧ contains ","%char w = false ∧ contains ":"%char w = false.
Proof.
  unfold plain. destruct w as [| a w]; [discriminate |].
  intros Hall. split; [done |]. split.
  - clear -Hall. induction (String a w) as [| b s IH]; [done |].
    simpl in *. apply andb_true_iff in Hall as [Hb Hs].
    unfold plain_char in Hb. apply negb_true_iff, orb_false_iff in Hb as [Hb _].
    apply orb_false_iff in Hb as [Hb _]. by rewrite Hb, IH.
  - split.
    + destruct (contains ","%char (String a w)) eqn:Hc; [| done].
      by pose proof (all_chars_contains _ _ _ Hall Hc).
    + destruct (contains ":"%char (String a w)) eqn:Hc; [| done].
      by pose proof (all_chars_contains _ _ _ Hall Hc).
Qed.

Lemma split_from_end cur : cur ≠ "" → split_from cur "" = [cur].
Proof. by destruct cur. Qed.

Lemma split_from_blank cur rest :
  cur ≠ "" → split_from cur (" " ++ rest) = cur :: split_from "" rest.
Proof. by destruct cur. Qed.

Lemma split_join_words ws :
  Forall (λ w, plain w = true) ws → split (join " " ws) = ws.
Proof.
  unfold split. induction ws as [| w ws IH]; [done |].
  intros [Hw Hws]%Forall_cons.
  apply plain_word in Hw as (Hne & Hchars & _).
  destruct ws as [| w2 ws].
  - cbn [join]. rewrite <- (string_app_nil_r w) at 1.
    rewrite split_from_word by done. by apply split_from_end.
  - change (join " " (w :: w2 :: ws)) with (w ++ " " ++ join " " (w2 :: ws)).
    rewrite split_from_word by done.
    change ("" ++ w) with w. rewrite split_from_blank by done.
    by rewrite IH.
Qed.

Lemma contains_join c sep ws :
  contains c sep = false → Forall (λ w, contains c w = false) ws →
  contains c (join sep ws) = false.
Proof.
  intros Hsep. induction ws as [| w ws IH]; [done |].
  intros [Hw Hws]%Forall_cons. destruct ws as [| w2 ws]; [done |].
  change (join sep (w :: w2 :: ws)) with (w ++ sep ++ join sep (w2 :: ws)).
  by rewrite !contains_app, Hw, Hsep, IH.
Qed.

(** Replacing each comma by a blank, character by character. *)
Lemma replace_comma_cons a s :
  replace "," " " (String a s)
  = String (if Ascii.eqb a ","%char then " "%char else a) (replace "," " " s).
Proof.
  unfold replace. cbn [replace_from String.prefix].
  destruct (ascii_dec ","%char a) as [<- | Hne]; [by destruct s |].
  assert (Ascii.eqb a ","%char = false) as -> by (apply Ascii.eqb_neq; congruence).
  done.
Qed.

Lemma replace_comma_app s1 s2 :
  replace "," " " (s1 ++ s2) = replace "," " " s1 ++ replace "," " " s2.
Proof.
  induction s1 as [| a s1 IH]; [done |].
  change (String a s1 ++ s2) with (String a (s1 ++ s2)).
  rewrite !replace_comma_cons, IH. done.
Qed.

Lemma replace_comma_join ws :
  Forall (λ w, contains ","%char w = false) ws →
  replace "," " " (join "," ws) = join " " ws.
Proof.
  induction ws as [| w ws IH]; [done |].
  intros [Hw Hws]%Forall_cons. destruct ws as [| w2 ws].
  - cbn [join]. by apply (replace_absent _ _ _ ","%char).
  - change (join "," (w :: w2 :: ws)) with (w ++ "," ++ join "," (w2 :: ws)).
    rewrite !replace_comma_app, IH by done.
    by rewrite (replace_absent "," " " w ","%char).
Qed.

Lemma tokens_join_blank ws :
  Forall (λ w, plain w = true) ws → tokens (join " " ws) = ws.
Proof.
  intros Hws. unfold tokens.
  assert (Hc : ∀ c, c = ","%char ∨ c = ":"%char → contains c (join " " ws) = false).
  { intros c Hcc. apply contains_join; [by destruct Hcc as [-> | ->] |].
    eapply Forall_impl; [exact Hws |]. intros w Hw. simpl in Hw.
    apply plain_word in Hw as (_ & _ & H1 & H2). by destruct Hcc as [-> | ->]. }
  rewrite (replace_absent "," " " _ ","%char) by (try done; apply Hc; by left).
  rewrite (replace_absent "ID:" "" _ ":"%char) by (try done; apply Hc; by right).
  rewrite (replace_absent "DATA:" "" _ ":"%char) by (try done; apply Hc; by right).
  by apply split_join_words.
Qed.

(** X17. The line parser reads back the words of a line: for words that
    are not empty and hold no blank, comma or colon, the line made of the
    words with one blank between them, and the line made of the words with
    one comma between them, both tokenize to exactly these words, in
    order. *)
Theorem tokens_of_words (ws : list string) :
  Forall (λ w, plain w = true) ws →
  tokens (join " " ws) = ws ∧ tokens (join "," ws) = ws.
Proof.
  intros Hws. split; [by apply tokens_join_blank |].
  rewrite <- (tokens_join_blank ws Hws) at 2.
  unfold tokens. rewrite replace_comma_join.
  - rewrite (replace_absent "," " " (join " " ws) ","%char); [done | done |].
    apply contains_join; [done |].
    eapply Forall_impl; [exact Hws |]. intros w Hw. simpl in Hw.
    by apply plain_word in Hw as (_ & _ & H1 & _).
  - eapply Forall_impl; [exact Hws |]. intros w Hw. simpl in Hw.
    by apply plain_word in Hw as (_ & _ & H1 & _).
Qed.

Lemma tokens_of_words_witness :
  tokens (join " " ["0x181"; "8"; "30"; "58"; "02"]) = ["0x181"; "8"; "30"; "58"; "02"]
  ∧ tokens (join "," ["0x181"; "8"; "30"; "58"; "02"]) = ["0x181"; "8"; "30"; "58"; "02"].
Proof.
  apply (tokens_of_words ["0x181"; "8"; "30"; "58"; "02"]).
  repeat constructor.
Defined.

(** ** The canonical id *)

Lemma canonical_id_prefixed p0 : startswith "0x" (canonical_id p0) = true.
Proof.
  unfold canonical_id. destruct (startswith "0x" p0) eqn:Hp; [done |].
  unfold startswith. rewrite !string_app_cons. cbn [String.prefix].
  destruct (ascii_dec "0" "0"); [| done]. destruct (ascii_dec "x" "x"); [| done].
  by destruct p0.
Qed.

(** An id written with the upper-case prefix is never read as a number. *)
Lemma int16_upper_prefix rest : ∃ e, int16 ("0x0X" ++ rest) = Raise e.
Proof. eexists. reflexivity. Qed.

(** X18. The canonical id always starts with [0x], canonicalising twice
    changes nothing, and an id token without the prefix has the canonical id
    of the same token with the prefix, so both spellings share one
    statistics entry and one row. The prefix is matched in lower case only:
    a token that starts with [0X] gets a second prefix, and its frames are
    answered with an [Err: ] text whatever their data. *)
Theorem canonical_id_cases (p0 : string) :
  startswith "0x" (canonical_id p0) = true
  ∧ canonical_id (canonical_id p0) = canonical_id p0
  ∧ (startswith "0x" p0 = false → canonical_id ("0x" ++ p0) = canonical_id p0)
  ∧ (∀ data, ∃ e, decode (canonical_id ("0X" ++ p0)) data = Text ("Err: " ++ str_exn e)).
Proof.
  pose proof (canonical_id_prefixed p0) as Hpre.
  split; [done |]. split; [| split].
  - unfold canonical_id at 1. by rewrite Hpre.
  - intros Hp. pose proof (canonical_id_prefixed p0) as Hq.
    unfold canonical_id in *. rewrite Hp in *. by rewrite Hq.
  - intros data. apply decode_non_hex. left. apply int16_upper_prefix.
Qed.

(** ** The baud rate of [connect] *)

(** X19. The baud rate that [connect] passes on is always positive: it is
    the number in the combo box when that reads as a decimal integer above
    0, with nothing logged, and 9600 with a logged warning in every other
    case (text that is no integer, zero, a negative number). *)
Theorem connect_baud_cases (raw_baud : string) :
  0 < fst (connect_baud raw_baud)
  ∧ (∀ n, int10 raw_baud = Ok n → 0 < n → connect_baud raw_baud = (n, None))
  ∧ ((∀ n, int10 raw_baud = Ok n → n <= 0) →
     fst (connect_baud raw_baud) = 9600
     ∧ snd (connect_baud raw_baud)
       = Some ("SYS: Invalid baud '" ++ raw_baud ++ "'. Falling back to 9600." ++ newline)).
Proof.
  unfold connect_baud. destruct (int10 raw_baud) as [n | e].
  - destruct (Z.leb_spec n 0) as [Hle | Hgt]; simpl.
    + split; [lia |]. split; [| done]. intros m [= <-] Hm. lia.
    + split; [lia |]. split.
      * by intros m [= <-] _.
      * intros Hall. specialize (Hall n eq_refl). lia.
  - simpl. split; [lia |]. split; [| done]. by intros n.
Qed.

(* ================================================================== *)
(** * The simulator and the decoder *)
(* ================================================================== *)

(** ** Bytes written in hexadecimal *)

Lemma byte_in_seq b : is_byte b → In b (seqZ 0 256).
Proof. intros Hb. apply list_elem_of_In, elem_of_seqZ. unfold is_byte in Hb. lia. Qed.

Lemma hex2_upper_checked :
  forallb (λ b, plain (hex2_upper b)
                && match int16 (hex2_upper b) with Ok v => v =? b | Raise _ => false end)
          (seqZ 0 256) = true.
Proof. by vm_compute. Qed.

(** The two upper-case digits of a byte are a word of the line grammar that
    [int(_, 16)] reads back as the byte. *)
Lemma hex2_upper_byte b :
  is_byte b → plain (hex2_upper b) = true ∧ int16 (hex2_upper b) = Ok b.
Proof.
  intros Hb. pose proof hex2_upper_checked as Hall.
  rewrite forallb_forall in Hall. specialize (Hall b (byte_in_seq b Hb)).
  apply andb_true_iff in Hall as [Hplain Hint]. split; [done |].
  destruct (int16 (hex2_upper b)) as [v | e]; [| discriminate].
  apply Z.eqb_eq in Hint. by subst.
Qed.

Lemma mapM_int16_hex bs :
  Forall is_byte bs → mapM int16 (hex2_upper <$> bs) = Ok bs.
Proof.
  induction bs as [| b bs IH]; [done |].
  intros [Hb Hbs]%Forall_cons. cbn [fmap list_fmap mapM].
  destruct (hex2_upper_byte b Hb) as [_ ->]. cbn [mbind result_bind].
  fold (fmap (M := list) hex2_upper bs). rewrite IH by done. done.
Qed.

Lemma plain_hex_words bs :
  Forall is_byte bs → Forall (λ w, plain w = true) (hex2_upper <$> bs).
Proof.
  intros Hbs. apply Forall_fmap. eapply Forall_impl; [exact Hbs |].
  intros b Hb. by apply hex2_upper_byte.
Qed.

(** A frame whose data bytes are written as two upper-case hexadecimal
    digits each reaches the routine of its id with these bytes. *)
Lemma decode_hex_frame can_id_str can_id f bs :
  int16 can_id_str = Ok can_id → DECODER_MAP !! can_id = Some f →
  Forall is_byte bs →
  decode can_id_str (hex2_upper <$> bs)
  = match f bs with
    | Ok d => Signals d
    | Raise e => Text ("Err: " ++ str_exn e)
    end.
Proof.
  intros Hid Hf Hbs. unfold decode, decode_try.
  rewrite Hid; cbn [mbind result_bind].
  rewrite mapM_int16_hex by done. cbn [mbind result_bind].
  rewrite Hf. by destruct (f bs).
Qed.

(** ** The frames the simulator writes *)

Lemma pack_le_h_bytes n :
  -32768 <= n <= 32767 →
  pack_le_h n = Some [byte_of n 0; byte_of n 1].
Proof.
  intros Hn. unfold pack_le_h, in_range.
  destruct (Z.leb_spec (-32768) n); [| lia].
  destruct (Z.leb_spec n 32767); [| lia]. cbn [andb].
  unfold byte_of. change (2 ^ (8 * 0)) with 1. change (2 ^ (8 * 1)) with 256.
  by rewrite Z.div_1_r.
Qed.

Lemma pack_hex_split n :
  -32768 <= n <= 32767 →
  ∃ h, TestGen.pack_hex n = Some h
       ∧ take 2 h = hex2_upper (byte_of n 0) ∧ drop 2 h = hex2_upper (byte_of n 1).
Proof.
  intros Hn. unfold TestGen.pack_hex. rewrite pack_le_h_bytes by done.
  eexists. split; [reflexivity |]. by split.
Qed.

Lemma mux_line_tokens sel h :
  plain sel = true → plain (take 2 h) = true → plain (drop 2 h) = true →
  tokens (mux_line sel h)
  = ["0x181"; "8"; sel; take 2 h; drop 2 h; "00"; "00"; "00"; "00"].
Proof.
  intros Hsel H1 H2.
  change (mux_line sel h)
    with (join " " ["0x181"; "8"; sel; take 2 h; drop 2 h; "00"; "00"; "00"; "00"]).
  apply tokens_join_blank. by repeat constructor.
Qed.

(** The signed 16-bit value a multiplexed frame carries, read back. *)
Lemma mux_value_read n sel rest :
  -32768 <= n <= 32767 →
  parse_le_int16 (sel :: byte_of n 0 :: byte_of n 1 :: rest) 1 = Ok n.
Proof.
  intros Hn.
  rewrite parse_le_int16_tail.
  rewrite parse_le_int16_bytes by apply byte_of_is_byte.
  by rewrite bytes16_sum, (signed_mod n 16) by (simpl; lia).
Qed.

(** X20. What the simulator writes for a 16-bit value, the decoder reads
    back. For every [n] from -32768 to 32767, [struct.pack] never raises,
    and the line the simulator builds from the packed bytes for selector 30
    resp. 49 is a frame of the canonical id [0x181] that [decode] answers
    with RPM resp. Motor Temp equal to [n * 1.0]. *)
Theorem simulator_mux_frame (n : Z) :
  -32768 <= n <= 32767 →
  ∃ h, TestGen.pack_hex n = Some h
     ∧ frame_id (mux_line "30" h) = Some "0x181"
     ∧ frame_id (mux_line "49" h) = Some "0x181"
     ∧ (∃ p1 data, tokens (mux_line "30" h) = "0x181" :: p1 :: data
          ∧ decode "0x181" data = Signals [("RPM", VFloat (fmul (float_lit n) f_1_0))])
     ∧ (∃ p1 data, tokens (mux_line "49" h) = "0x181" :: p1 :: data
          ∧ decode "0x181" data
            = Signals [("Motor Temp", VFloat (fmul (float_lit n) f_1_0))]).
Proof.
  intros Hn. destruct (pack_hex_split n Hn) as (h & Hh & H1 & H2).
  exists h. split; [done |].
  assert (Hb0 : is_byte (byte_of n 0)) by apply byte_of_is_byte.
  assert (Hb1 : is_byte (byte_of n 1)) by apply byte_of_is_byte.
  assert (Htok : ∀ sel, plain sel = true →
            tokens (mux_line sel h)
            = ["0x181"; "8"; sel; hex2_upper (byte_of n 0); hex2_upper (byte_of n 1);
               "00"; "00"; "00"; "00"]).
  { intros sel Hsel. rewrite mux_line_tokens, H1, H2; try done.
    - rewrite H1. by apply hex2_upper_byte.
    - rewrite H2. by apply hex2_upper_byte. }
  assert (Hdec : ∀ selv, is_byte selv →
            decode "0x181" (hex2_upper <$> [selv; byte_of n 0; byte_of n 1; 0; 0; 0; 0])
            = match decode_inverter_multiplexed [selv; byte_of n 0; byte_of n 1; 0; 0; 0; 0] with
              | Ok d => Signals d
              | Raise e => Text ("Err: " ++ str_exn e)
              end).
  { intros selv Hselv.
    apply (decode_hex_frame "0x181" 0x181);
      [by vm_compute | apply DECODER_MAP_entry; find_entry |].
    unfold is_byte in *. repeat (constructor; [lia |]). constructor. }
  assert (Hmul : int_mul_float n f_1_0 = Ok (fmul (float_lit n) f_1_0))
    by (apply int_mul_float_small; lia).
  split; [unfold frame_id; by rewrite Htok |].
  split; [unfold frame_id; by rewrite Htok |].
  split.
  - eexists _, _. split; [by apply Htok |].
    change ["30"; hex2_upper (byte_of n 0); hex2_upper (byte_of n 1); "00"; "00"; "00"; "00"]
      with (hex2_upper <$> [0x30; byte_of n 0; byte_of n 1; 0; 0; 0; 0]).
    rewrite Hdec by (unfold is_byte; lia).
    unfold decode_inverter_multiplexed.
    change (Nat.ltb (length [0x30; byte_of n 0; byte_of n 1; 0; 0; 0; 0]) 3) with false.
    change (index [0x30; byte_of n 0; byte_of n 1; 0; 0; 0; 0] 0) with (Ok 0x30).
    cbn [mbind result_bind]. rewrite mux_value_read by done.
    cbn [mbind result_bind]. change (0x30 =? 0x30) with true. cbv iota.
    by rewrite Hmul.
  - eexists _, _. split; [by apply Htok |].
    change ["49"; hex2_upper (byte_of n 0); hex2_upper (byte_of n 1); "00"; "00"; "00"; "00"]
      with (hex2_upper <$> [0x49; byte_of n 0; byte_of n 1; 0; 0; 0; 0]).
    rewrite Hdec by (unfold is_byte; lia).
    unfold decode_inverter_multiplexed.
    change (Nat.ltb (length [0x49; byte_of n 0; byte_of n 1; 0; 0; 0; 0]) 3) with false.
    change (index [0x49; byte_of n 0; byte_of n 1; 0; 0; 0; 0] 0) with (Ok 0x49).
    cbn [mbind result_bind]. rewrite mux_value_read by done.
    cbn [mbind result_bind].
    change (0x49 =? 0x30) with false. change (0x49 =? 0xEB) with false.
    change (0x49 =? 0x20) with false. change (0x49 =? 0x49) with true. cbv iota.
    by rewrite Hmul.
Qed.

Lemma simulator_mux_frame_witness :
  ∃ h, TestGen.pack_hex 40 = Some h ∧ frame_id (mux_line "30" h) = Some "0x181".
Proof.
  destruct (simulator_mux_frame 40) as (h & Hh & Hid & _); [lia |].
  by exists h.
Defined.

Lemma to_bytes6_be_bytes v :
  - 2 ^ 47 <= v < 2 ^ 47 →
  to_bytes6_be v
  = Some [byte_of v 5; byte_of v 4; byte_of v 3; byte_of v 2; byte_of v 1; byte_of v 0].
Proof.
  intros Hv. unfold to_bytes6_be, in_range.
  destruct (Z.leb_spec (- 2 ^ 47) v); [| lia].
  destruct (Z.leb_spec v (2 ^ 47 - 1)); [| lia]. cbn [andb].
  unfold byte_of. change (2 ^ (8 * 0)) with 1. by rewrite Z.div_1_r.
Qed.

(** X21. What the simulator writes for the pack voltage, the decoder reads
    back, up to the width of the field. For every [v] of the 48-bit signed
    range [to_bytes] never raises, and the line built from its six bytes is
    a frame of the canonical id [0x523]; the decoder reads the last five of
    the six bytes, so [decode] answers with the text of [w * 0.001] to two
    decimals, where [w] is [v] reduced to 40 bits, which is [v] itself
    from [-2^39] to [2^39 - 1]. *)
Theorem simulator_volt_frame (v : Z) :
  - 2 ^ 47 <= v < 2 ^ 47 →
  ∃ bs, to_bytes6_be v = Some bs
     ∧ frame_id (volt_line bs) = Some "0x523"
     ∧ (∃ p1 data, tokens (volt_line bs) = "0x523" :: p1 :: data
          ∧ decode "0x523" data
            = Signals [("Volts Pack",
                        VStr (format_fixed 2
                                (fmul (float_lit (signed 40 (v mod 2 ^ 40))) f_0_001)
                              ++ " V"))])
     ∧ (- 2 ^ 39 <= v < 2 ^ 39 → signed 40 (v mod 2 ^ 40) = v).
Proof.
  intros Hv. rewrite to_bytes6_be_bytes by done. eexists. split; [done |].
  set (bs := [byte_of v 5; byte_of v 4; byte_of v 3; byte_of v 2; byte_of v 1; byte_of v 0]).
  assert (Hbs : Forall is_byte bs) by (repeat constructor; apply byte_of_is_byte).
  assert (Htok : tokens (volt_line bs) = "0x523" :: "6" :: (hex2_upper <$> bs)).
  { change (volt_line bs) with (join " " ("0x523" :: "6" :: (hex2_upper <$> bs))).
    apply tokens_join_blank. constructor; [done |]. constructor; [done |].
    by apply plain_hex_words. }
  split; [unfold frame_id; by rewrite Htok |].
  split; [| intros Hv40; apply signed_mod; lia].
  eexists _, _. split; [exact Htok |].
  rewrite (decode_hex_frame "0x523" 0x523 decode_ivt_voltage_pack);
    [| by vm_compute | apply DECODER_MAP_entry; find_entry | done].
  unfold decode_ivt_voltage_pack, bs.
  rewrite parse_ivt_int40_bytes by apply byte_of_is_byte.
  rewrite bytes40_sum. cbn [mbind result_bind].
  rewrite int_mul_float_small; [done |].
  pose proof (signed_bounds 40 (v mod 2 ^ 40)) as Hb.
  pose proof (Z.mod_pos_bound v (2 ^ 40)) as Hm.
  change (40 - 1) with 39 in Hb. lia.
Qed.

Lemma simulator_volt_frame_witness :
  ∃ bs, to_bytes6_be 400017 = Some bs ∧ frame_id (volt_line bs) = Some "0x523".
Proof.
  destruct (simulator_volt_frame 400017) as (bs & Hbs & Hid & _); [lia |].
  by exists bs.
Defined.

(** ** The run of the simulator *)

Lemma mux_line_frame_id sel n h :
  plain sel = true → -32768 <= n <= 32767 → TestGen.pack_hex n = Some h →
  frame_id (mux_line sel h) = Some "0x181".
Proof.
  intros Hsel Hn Hh. destruct (pack_hex_split n Hn) as (h' & Hh' & H1 & H2).
  rewrite Hh in Hh'. injection Hh' as <-.
  unfold frame_id. rewrite mux_line_tokens; [done | done | |].
  - rewrite H1. apply hex2_upper_byte, byte_of_is_byte.
  - rewrite H2. apply hex2_upper_byte, byte_of_is_byte.
Qed.

Lemma volt_line_frame_id v bs :
  - 2 ^ 47 <= v < 2 ^ 47 → to_bytes6_be v = Some bs →
  frame_id (volt_line bs) = Some "0x523".
Proof.
  intros Hv Hbs. rewrite to_bytes6_be_bytes in Hbs by done. injection Hbs as <-.
  unfold frame_id.
  change (volt_line [byte_of v 5; byte_of v 4; byte_of v 3; byte_of v 2; byte_of v 1; byte_of v 0])
    with (join " " ("0x523" :: "6"
                    :: (hex2_upper <$> [byte_of v 5; byte_of v 4; byte_of v 3;
                                        byte_of v 2; byte_of v 1; byte_of v 0]))).
  rewrite tokens_join_blank; [done |].
  constructor; [done |]. constructor; [done |].
  apply plain_hex_words. repeat constructor; apply byte_of_is_byte.
Qed.

(** A frame whose data bytes are written as two upper-case hexadecimal
    digits each is counted. *)
Lemma hex_frame_counted line p0 p1 bs :
  tokens line = p0 :: p1 :: (hex2_upper <$> bs) → Forall is_byte bs →
  counted_id line = Some (canonical_id p0).
Proof.
  intros Htok Hbs.
  destruct (val_str_rendered (decode (canonical_id p0) (hex2_upper <$> bs))) as [vs Hvs].
  - apply (decode_bytes_rendered _ _ bs); [by apply mapM_int16_hex | done].
  - by apply (counted_id_rendered line p0 p1 (hex2_upper <$> bs) vs).
Qed.

Lemma mux_line_counted sel selv n h :
  plain sel = true → sel = hex2_upper selv → is_byte selv →
  -32768 <= n <= 32767 → TestGen.pack_hex n = Some h →
  counted_id (mux_line sel h) = Some "0x181".
Proof.
  intros Hsel Hselv Hbyte Hn Hh. destruct (pack_hex_split n Hn) as (h' & Hh' & H1 & H2).
  rewrite Hh in Hh'. injection Hh' as <-.
  apply (hex_frame_counted _ "0x181" "8" [selv; byte_of n 0; byte_of n 1; 0; 0; 0; 0]).
  - rewrite mux_line_tokens; [by rewrite H1, H2, Hselv | done | |].
    + rewrite H1. apply hex2_upper_byte, byte_of_is_byte.
    + rewrite H2. apply hex2_upper_byte, byte_of_is_byte.
  - constructor; [done |]. constructor; [apply byte_of_is_byte |].
    constructor; [apply byte_of_is_byte |].
    repeat (constructor; [unfold is_byte; lia |]). constructor.
Qed.

Lemma volt_line_counted v bs :
  - 2 ^ 47 <= v < 2 ^ 47 → to_bytes6_be v = Some bs →
  counted_id (volt_line bs) = Some "0x523".
Proof.
  intros Hv Hbs. rewrite to_bytes6_be_bytes in Hbs by done. injection Hbs as <-.
  apply (hex_frame_counted _ "0x523" "6"
           [byte_of v 5; byte_of v 4; byte_of v 3; byte_of v 2; byte_of v 1; byte_of v 0]).
  - change (volt_line [byte_of v 5; byte_of v 4; byte_of v 3; byte_of v 2; byte_of v 1;
                       byte_of v 0])
      with (join " " ("0x523" :: "6"
                      :: (hex2_upper <$> [byte_of v 5; byte_of v 4; byte_of v 3;
                                          byte_of v 2; byte_of v 1; byte_of v 0]))).
    apply tokens_join_blank.
    constructor; [done |]. constructor; [done |].
    apply plain_hex_words. repeat constructor; apply byte_of_is_byte.
  - repeat constructor; apply byte_of_is_byte.
Qed.

Lemma triangle_range n : 0 <= triangle n <= 6000.
Proof.
  unfold triangle. pose proof (Z.mod_pos_bound n 300 ltac:(lia)) as Hk.
  destruct (Z.leb_spec (n mod 300) 150); lia.
Qed.

(** One turn of the counter, in closed form. *)
Lemma rpm_turn n :
  triangle n + 40 * direction n = triangle (n + 1)
  ∧ (if (triangle (n + 1) >=? 6000) || (triangle (n + 1) <=? 0)
     then direction n * -1 else direction n) = direction (n + 1).
Proof.
  unfold triangle, direction.
  pose proof (Z.mod_pos_bound n 300 ltac:(lia)) as Hk.
  assert (Hnext : (n + 1) mod 300 = if n mod 300 =? 299 then 0 else n mod 300 + 1).
  { destruct (Z.eqb_spec (n mod 300) 299) as [Heq | Hne].
    - symmetry. apply Z.mod_unique with (q := n / 300 + 1); [lia |].
      pose proof (Z.div_mod n 300 ltac:(lia)). lia.
    - symmetry. apply Z.mod_unique with (q := n / 300); [lia |].
      pose proof (Z.div_mod n 300 ltac:(lia)). lia. }
  rewrite Hnext. clear Hnext.
  destruct (Z.eqb_spec (n mod 300) 299) as [Heq | Hne].
  - rewrite Heq. by vm_compute.
  - set (k := n mod 300) in *.
    destruct (Z.ltb_spec k 150), (Z.leb_spec k 150), (Z.leb_spec (k + 1) 150),
      (Z.ltb_spec (k + 1) 150); try lia;
      (split; [lia |]);
      repeat match goal with
             | |- context [?a >=? ?b] => destruct (Z.geb_spec a b)
             | |- context [?a <=? ?b] => destruct (Z.leb_spec a b)
             end; cbn [orb]; lia.
Qed.

Lemma temp_values_length : length temp_values = 602%nat.
Proof. by vm_compute. Qed.

Lemma temp_at_late n : (602 <= n)%nat → temp_at n = TestGen.NInt 60.
Proof.
  intros Hn. unfold temp_at. apply nth_overflow. rewrite temp_values_length. lia.
Qed.

Lemma temp_values_checked :
  Forall (λ n, TestGen.next_temp (temp_at n) = Some (temp_at (S n))
               ∧ (∃ t, TestGen.int_of_num (temp_at n) = Some t ∧ 30 <= t <= 60)
               ∧ (temp_at n = TestGen.NInt 60 ↔ (601 <= n)%nat))
         (seq 0 603).
Proof.
  apply Forall_forall. intros n Hn.
  assert (Hcheck :
    forallb (λ n, bool_decide (TestGen.next_temp (temp_at n) = Some (temp_at (S n)))
                  && match TestGen.int_of_num (temp_at n) with
                     | Some t => (30 <=? t) && (t <=? 60)
                     | None => false
                     end
                  && bool_decide (bool_decide (temp_at n = TestGen.NInt 60)
                                  = (601 <=? n)%nat))
            (seq 0 603) = true) by (by vm_compute).
  rewrite forallb_forall in Hcheck. apply list_elem_of_In in Hn.
  specialize (Hcheck n Hn).
  apply andb_true_iff in Hcheck as [[H1 H2]%andb_true_iff H3].
  apply bool_decide_eq_true in H1. apply bool_decide_eq_true in H3.
  split; [done |]. split.
  - destruct (TestGen.int_of_num (temp_at n)) as [t |]; [| discriminate].
    exists t. split; [done |]. apply andb_true_iff in H2. lia.
  - destruct (Nat.leb_spec 601 n) as [Hle | Hlt].
    + apply bool_decide_eq_true in H3. by split.
    + apply bool_decide_eq_false in H3. split; [done | lia].
Qed.

Lemma temp_at_cases n :
  TestGen.next_temp (temp_at n) = Some (temp_at (S n))
  ∧ (∃ t, TestGen.int_of_num (temp_at n) = Some t ∧ 30 <= t <= 60)
  ∧ (temp_at n = TestGen.NInt 60 ↔ (601 <= n)%nat).
Proof.
  destruct (Nat.lt_ge_cases n 603) as [Hlt | Hge].
  - pose proof temp_values_checked as Hall. rewrite Forall_forall in Hall.
    apply Hall. apply elem_of_seq. lia.
  - rewrite !temp_at_late by lia. split; [by vm_compute |].
    split; [exists 60; split; [done | lia] |]. split; [lia | done].
Qed.

(** One turn of the loop when none of its five calls raises. *)
Lemma loop_body_values j r d v tmp tmp' t h1 h2 bs :
  TestGen.next_temp tmp = Some tmp' → TestGen.int_of_num tmp' = Some t →
  TestGen.pack_hex (r + 40 * d) = Some h1 → TestGen.pack_hex t = Some h2 →
  to_bytes6_be (v + j) = Some bs →
  TestGen.loop_body j {| TestGen.rpm := r; TestGen.rpm_dir := d;
                         TestGen.volt := v; TestGen.temp := tmp |}
  = Some ({| TestGen.rpm := r + 40 * d;
             TestGen.rpm_dir := if (r + 40 * d >=? 6000) || (r + 40 * d <=? 0)
                                then d * -1 else d;
             TestGen.volt := v; TestGen.temp := tmp' |},
          [mux_line "30" h1; mux_line "49" h2; volt_line bs]).
Proof.
  intros Htmp Ht Hh1 Hh2 Hbs. unfold TestGen.loop_body.
  cbn [TestGen.rpm TestGen.rpm_dir TestGen.volt TestGen.temp].
  rewrite Htmp. cbn [mbind option_bind]. rewrite Hh1. cbn [mbind option_bind].
  rewrite Ht. cbn [mbind option_bind]. rewrite Hh2. cbn [mbind option_bind].
  rewrite Hbs. reflexivity.
Qed.

(** One turn from the state reached after [n] turns. *)
Lemma loop_body_turn n j g :
  state_at n g → -500 <= j <= 500 →
  ∃ g' h1 h2 bs,
    TestGen.loop_body j g = Some (g', [mux_line "30" h1; mux_line "49" h2; volt_line bs])
    ∧ state_at (S n) g'
    ∧ frame_id (mux_line "30" h1) = Some "0x181"
    ∧ frame_id (mux_line "49" h2) = Some "0x181"
    ∧ frame_id (volt_line bs) = Some "0x523"
    ∧ counted_id (mux_line "30" h1) = Some "0x181"
    ∧ counted_id (mux_line "49" h2) = Some "0x181"
    ∧ counted_id (volt_line bs) = Some "0x523".
Proof.
  destruct g as [r d v tmp]. unfold state_at.
  cbn [TestGen.rpm TestGen.rpm_dir TestGen.volt TestGen.temp].
  intros (-> & -> & -> & ->) Hj.
  destruct (rpm_turn (Z.of_nat n)) as [Hnext Hflip].
  pose proof (triangle_range (Z.of_nat n + 1)) as Hrange.
  destruct (temp_at_cases n) as (Hstep & _ & _).
  destruct (temp_at_cases (S n)) as (_ & (t & Ht & Htr) & _).
  assert (Hn : Z.of_nat (S n) = Z.of_nat n + 1) by lia.
  destruct (pack_hex_split (triangle (Z.of_nat n + 1))) as (h1 & Hh1 & _); [lia |].
  destruct (pack_hex_split t) as (h2 & Hh2 & _); [lia |].
  pose proof (to_bytes6_be_bytes (400000 + j) ltac:(lia)) as Hbs.
  pose proof (loop_body_values j (triangle (Z.of_nat n)) (direction (Z.of_nat n)) 400000
                (temp_at n) (temp_at (S n)) t h1 h2
                [byte_of (400000 + j) 5; byte_of (400000 + j) 4; byte_of (400000 + j) 3;
                 byte_of (400000 + j) 2; byte_of (400000 + j) 1; byte_of (400000 + j) 0]
                Hstep Ht) as Hbody.
  rewrite Hnext in Hbody. specialize (Hbody Hh1 Hh2 Hbs). rewrite Hflip in Hbody.
  eexists _, h1, h2, _. split; [exact Hbody |].
  cbn [TestGen.rpm TestGen.rpm_dir TestGen.volt TestGen.temp]. rewrite Hn.
  split; [by repeat split |].
  split; [by apply (mux_line_frame_id "30" (triangle (Z.of_nat n + 1))); [| lia |] |].
  split; [by apply (mux_line_frame_id "49" t); [| lia |] |].
  split; [apply (volt_line_frame_id (400000 + j)); [lia | done] |].
  split; [apply (mux_line_counted "30" 0x30 (triangle (Z.of_nat n + 1)));
          [done | done | unfold is_byte; lia | lia | done] |].
  split; [apply (mux_line_counted "49" 0x49 t);
          [done | done | unfold is_byte; lia | lia | done] |].
  apply (volt_line_counted (400000 + j)); [lia | done].
Qed.

Lemma state_at_init : state_at 0 TestGen.init.
Proof. by vm_compute. Qed.

(** The run of any number of turns from the state after [n] turns. *)
Lemma run_from n jitters g :
  state_at n g → Forall (λ j, -500 <= j <= 500) jitters →
  ∃ g' out, TestGen.run jitters g = Some (g', out)
    ∧ state_at (n + length jitters) g'
    ∧ frame_id <$> out = turn_frames (length jitters)
    ∧ counted_id <$> out = turn_frames (length jitters).
Proof.
  revert n g. induction jitters as [| j js IH]; intros n g Hg Hjs.
  - exists g, []. split; [done |]. split; [by rewrite Nat.add_0_r | done].
  - apply Forall_cons in Hjs as [Hj Hjs].
    destruct (loop_body_turn n j g Hg Hj)
      as (g1 & h1 & h2 & bs & Hbody & Hg1 & F1 & F2 & F3 & C1 & C2 & C3).
    destruct (IH (S n) g1 Hg1 Hjs) as (g2 & out2 & Hrun & Hg2 & Hout2 & Hcnt2).
    eexists g2, _. split; [| split; [| split]].
    + cbn [TestGen.run]. rewrite Hbody. cbn [mbind option_bind].
      rewrite Hrun. cbn [mbind option_bind]. reflexivity.
    + cbn [length]. by replace (n + S (length js))%nat with (S n + length js)%nat by lia.
    + rewrite fmap_app. cbn [fmap list_fmap length turn_frames].
      rewrite F1, F2, F3. fold (fmap (M := list) frame_id out2). by rewrite Hout2.
    + rewrite fmap_app. cbn [fmap list_fmap length turn_frames].
      rewrite C1, C2, C3. fold (fmap (M := list) counted_id out2). by rewrite Hcnt2.
Qed.

(** X22. The simulator never raises, and its counter is a triangular wave.
    From the initial state and for any jitter values from -500 to 500, every
    turn of the loop succeeds and queues three lines; after [n] turns the
    counter is [40 * k] for [k = n mod 300] up to 150 and [40 * (300 - k)]
    past it, so it stays from 0 to 6000 and turns round exactly at the two
    bounds; the voltage base stays 400000; and the lines are, turn after
    turn, two frames of id [0x181] and one of id [0x523]. *)
Theorem simulator_run (jitters : list Z) :
  Forall (λ j, -500 <= j <= 500) jitters →
  ∃ g out, TestGen.run jitters TestGen.init = Some (g, out)
    ∧ TestGen.rpm g = triangle (Z.of_nat (length jitters))
    ∧ 0 <= TestGen.rpm g <= 6000
    ∧ TestGen.rpm_dir g = direction (Z.of_nat (length jitters))
    ∧ TestGen.volt g = 400000
    ∧ length out = (3 * length jitters)%nat
    ∧ frame_id <$> out = turn_frames (length jitters).
Proof.
  intros Hjs.
  destruct (run_from 0 jitters TestGen.init state_at_init Hjs)
    as (g & out & Hrun & (Hrpm & Hdir & Hvolt & _) & Hout & _).
  exists g, out. split; [done |]. split; [done |].
  split; [rewrite Hrpm; apply triangle_range |].
  split; [done |]. split; [done |]. split; [| done].
  rewrite <- (length_fmap frame_id), Hout.
  clear. induction (length jitters) as [| n IH]; [done |].
  cbn [turn_frames length]. rewrite IH. lia.
Qed.

Lemma simulator_run_witness :
  ∃ g out, TestGen.run [17; -500; 500] TestGen.init = Some (g, out)
    ∧ TestGen.rpm g = triangle 3 ∧ length out = 9%nat.
Proof.
  destruct (simulator_run [17; -500; 500]) as (g & out & Hrun & Hrpm & _ & _ & _ & Hlen & _).
  - repeat constructor; lia.
  - exists g, out. split; [exact Hrun |]. split; [exact Hrpm | exact Hlen].
Defined.

(** X23. The temperature of the simulator climbs from 30 and is clamped at
    60. After [n] turns its integer part, which is what the frame carries,
    is from 30 to 60; the value is the [int] 60 from turn 601 on, not
    earlier (the sum of 600 steps of 0.05 falls just short of 60), and
    stays 60 for ever. *)
Theorem simulator_temperature (jitters : list Z) :
  Forall (λ j, -500 <= j <= 500) jitters →
  ∃ g out, TestGen.run jitters TestGen.init = Some (g, out)
    ∧ TestGen.temp g = temp_at (length jitters)
    ∧ (∃ t, TestGen.int_of_num (TestGen.temp g) = Some t ∧ 30 <= t <= 60)
    ∧ (TestGen.temp g = TestGen.NInt 60 ↔ (601 <= length jitters)%nat).
Proof.
  intros Hjs.
  destruct (run_from 0 jitters TestGen.init state_at_init Hjs)
    as (g & out & Hrun & (_ & _ & _ & Htemp) & _ & _).
  exists g, out. split; [done |]. cbn [Nat.add] in Htemp. rewrite Htemp.
  split; [done |]. by destruct (temp_at_cases (length jitters)) as (_ & ? & ?).
Qed.

Lemma simulator_temperature_witness :
  ∃ g out, TestGen.run [0; 0] TestGen.init = Some (g, out)
    ∧ TestGen.temp g = temp_at 2.
Proof.
  destruct (simulator_temperature [0; 0]) as (g & out & Hrun & Htemp & _).
  - repeat constructor; lia.
  - exists g, out. split; [exact Hrun | exact Htemp].
Defined.

(** ** The simulator and the window *)

Lemma sightings_data_lines cid q :
  sightings cid q
  = length (List.filter (λ o, bool_decide (o = Some cid)) (counted_id <$> data_lines q)).
Proof.
  unfold sightings, data_lines. induction q as [| [now it] q IH]; [done |].
  destruct it as [ts raw | content];
    cbn [List.filter omap list_omap snd fmap list_fmap]; [| exact IH].
  case_bool_decide; cbn [length]; by rewrite IH.
Qed.

Lemma data_items_data_lines q : data_items q = length (data_lines q).
Proof.
  unfold data_items, data_lines. induction q as [| [now it] q IH]; [done |].
  destruct it as [ts raw | content]; cbn [List.filter omap list_omap snd length];
    by rewrite IH.
Qed.

Lemma turn_frames_count cid n :
  length (List.filter (λ o, bool_decide (o = Some cid)) (turn_frames n))
  = (if bool_decide (cid = "0x181") then 2 * n
     else if bool_decide (cid = "0x523") then n else 0)%nat.
Proof.
  induction n as [| n IH]; [by repeat case_bool_decide |].
  cbn [turn_frames List.filter].
  repeat case_bool_decide; simplify_eq; cbn [length]; rewrite IH;
    repeat case_bool_decide; simplify_eq; lia.
Qed.

Lemma turn_frames_length n : length (turn_frames n) = (3 * n)%nat.
Proof. induction n as [| n IH]; [done |]. cbn [turn_frames length]. rewrite IH. lia. Qed.

(** A count that is not 0 is shown in a row; a count of 0 has none. *)
Lemma consistent_count st cid :
  consistent st →
  (count_of st cid = 0 → stats st !! cid = None ∧ tree_values cid (tree st) = None)
  ∧ (count_of st cid ≠ 0 →
     ∃ r, tree_values cid (tree st) = Some r ∧ row_id r = cid
          ∧ row_count r = count_of st cid).
Proof.
  intros [_ Hrows]. specialize (Hrows cid). unfold count_of.
  destruct (stats st !! cid) as [s |]; cbn [from_option].
  - destruct Hrows as [Hc Hr]. split; [lia | done].
  - by split.
Qed.

(** X24. The simulator and the window, end to end. When the window drains
    a queue that holds the lines of [n] turns of the simulator, with any
    time stamps and clock values and with any status messages in between,
    starting from the empty window, the id [0x181] has been counted [2 * n]
    times and the id [0x523] [n] times, each in a dashboard row that shows
    this count, no other id has a statistics entry or a row, and the
    raw-stream widget holds [3 * n] lines. *)
Theorem simulator_dashboard (jitters : list Z) :
  Forall (λ j, -500 <= j <= 500) jitters →
  ∃ g out, TestGen.run jitters TestGen.init = Some (g, out)
    ∧ ∀ q, data_lines q = out →
        count_of (core (update_loop q empty_gui)) "0x181" = 2 * Z.of_nat (length jitters)
        ∧ count_of (core (update_loop q empty_gui)) "0x523" = Z.of_nat (length jitters)
        ∧ (∀ cid, cid ≠ "0x181" → cid ≠ "0x523" →
             stats (core (update_loop q empty_gui)) !! cid = None
             ∧ tree_values cid (tree (core (update_loop q empty_gui))) = None)
        ∧ (jitters ≠ [] →
             ∃ r1 r2,
               tree_values "0x181" (tree (core (update_loop q empty_gui))) = Some r1
               ∧ row_count r1 = 2 * Z.of_nat (length jitters)
               ∧ tree_values "0x523" (tree (core (update_loop q empty_gui))) = Some r2
               ∧ row_count r2 = Z.of_nat (length jitters))
        ∧ length (txt_raw (update_loop q empty_gui)) = (3 * length jitters)%nat.
Proof.
  intros Hjs.
  destruct (run_from 0 jitters TestGen.init state_at_init Hjs)
    as (g & out & Hrun & _ & Hids & Hout).
  exists g, out. split; [exact Hrun |]. intros q Hq.
  assert (Hcount : ∀ cid,
            count_of (core (update_loop q empty_gui)) cid
            = Z.of_nat (if bool_decide (cid = "0x181") then 2 * length jitters
                        else if bool_decide (cid = "0x523") then length jitters else 0)%nat).
  { intros cid. rewrite update_loop_counts, sightings_data_lines, Hq, Hout.
    rewrite turn_frames_count. unfold count_of. cbn [empty_gui core empty_ui stats].
    rewrite lookup_empty. cbn [from_option]. lia. }
  pose proof (update_loop_consistent q empty_gui consistent_empty) as Hcons.
  assert (H181 : count_of (core (update_loop q empty_gui)) "0x181"
                 = 2 * Z.of_nat (length jitters)).
  { rewrite Hcount. rewrite bool_decide_eq_true_2 by done. lia. }
  assert (H523 : count_of (core (update_loop q empty_gui)) "0x523"
                 = Z.of_nat (length jitters)).
  { rewrite Hcount. rewrite bool_decide_eq_false_2 by done.
    by rewrite bool_decide_eq_true_2 by done. }
  split; [exact H181 |]. split; [exact H523 |]. split; [| split].
  - intros cid H1 H2. apply consistent_count; [exact Hcons |].
    rewrite Hcount. by rewrite !bool_decide_eq_false_2 by done.
  - intros Hne. assert (Hpos : (0 < length jitters)%nat)
      by (destruct jitters; [done | simpl; lia]).
    destruct (consistent_count _ "0x181" Hcons) as [_ Hr1].
    destruct (consistent_count _ "0x523" Hcons) as [_ Hr2].
    destruct Hr1 as (r1 & Hv1 & _ & Hc1); [lia |].
    destruct Hr2 as (r2 & Hv2 & _ & Hc2); [lia |].
    exists r1, r2. rewrite Hc1, Hc2. by repeat split.
  - rewrite update_loop_raw, data_items_data_lines, Hq.
    rewrite <- (length_fmap counted_id out), Hout, turn_frames_length. done.
Qed.

Lemma simulator_dashboard_witness :
  ∃ g out, TestGen.run [17; -500] TestGen.init = Some (g, out).
Proof.
  destruct (simulator_dashboard [17; -500]) as (g & out & Hrun & _).
  - repeat constructor; lia.
  - exists g, out. exact Hrun.
Defined.
